(** * scripts/fetch-nyt-word.py: the Wordle word fetcher

    A shallow embedding of the script: Python strings as lists of code
    points, the regular expressions of the extraction step as data run
    by a backtracking matcher, the calendar arithmetic of [datetime],
    and the script's calls to its collaborators (browser automation,
    console, file system, subprocess) as a tree of typed events whose
    answers are supplied by the environment. *)

From Stdlib Require Import String Ascii DecimalString.
From Stdlib Require Import ZArith NArith Bool List Lia.
Import ListNotations.

Set Implicit Arguments.
Local Open Scope N_scope.

(** ** Python strings *)

(** A Python [str] is a sequence of Unicode code points. *)
Definition codepoint := N.
Definition pystr := list codepoint.

(** A string literal of the source (all of them are ASCII). *)
Definition lit (s : string) : pystr :=
  map N_of_ascii (list_ascii_of_string s).
Arguments lit s%_string.

(** The double quote, for the literals of the source that contain one. *)
Definition dq : pystr := [34].

(** [c * n] for a one-character string, as in [print("=" * 70)]. *)
Definition str_mul (s : pystr) (n : nat) : pystr := List.concat (repeat s n).

Fixpoint pystr_eqb (a b : pystr) : bool :=
  match a, b with
  | [], [] => true
  | x :: a', y :: b' => (x =? y) && pystr_eqb a' b'
  | _, _ => false
  end.

Fixpoint starts_with (needle hay : pystr) : bool :=
  match needle, hay with
  | [], _ => true
  | x :: n', y :: h' => (x =? y) && starts_with n' h'
  | _ :: _, [] => false
  end.

(** [needle in hay] on strings: [needle] occurs at some offset. *)
Fixpoint str_in (needle hay : pystr) : bool :=
  starts_with needle hay ||
  match hay with
  | [] => false
  | _ :: h' => str_in needle h'
  end.

(** [str(n)] for an [int]. *)
Definition str_of_int (n : Z) : pystr :=
  lit (NilZero.string_of_int (Z.to_int n)).

(** [s.zfill(width)]: zeros are inserted on the left, after a leading
    sign, until the string has [width] characters. *)
Definition zfill (width : nat) (s : pystr) : pystr :=
  let pad := repeat 48 (width - length s) in
  match s with
  | c :: rest =>
      if (c =? 43) || (c =? 45) then c :: pad ++ rest else pad ++ s
  | [] => pad
  end.

(** ** Character classes of [re] on [str] patterns *)

Definition is_ascii_upper (c : codepoint) : bool := (65 <=? c) && (c <=? 90).
Definition is_ascii_lower (c : codepoint) : bool := (97 <=? c) && (c <=? 122).
Definition is_ascii_digit (c : codepoint) : bool := (48 <=? c) && (c <=? 57).

(** U+0130 LATIN CAPITAL LETTER I WITH DOT ABOVE, U+0131 LATIN SMALL
    LETTER DOTLESS I, U+017F LATIN SMALL LETTER LONG S, U+212A KELVIN
    SIGN: the four code points outside ASCII that the case-insensitive
    matching of an ASCII letter reaches. *)
Definition cp_I_dot : codepoint := 304.
Definition cp_dotless_i : codepoint := 305.
Definition cp_long_s : codepoint := 383.
Definition cp_kelvin : codepoint := 8490.

(** The tables of the Unicode database that the script reaches only
    through the interpreter: which code points outside ASCII are
    decimal digits ([\d]), which are alphanumeric ([\w], for [\b]),
    and the upper-case mapping of [str.upper] outside the code points
    written out below. *)
Record unicode_db := {
  unicode_decimal : codepoint -> bool;
  unicode_alnum : codepoint -> bool;
  unicode_upper : codepoint -> pystr
}.

(** The database that knows nothing outside ASCII. *)
Definition ascii_db : unicode_db :=
  {| unicode_decimal := fun _ => false;
     unicode_alnum := fun _ => false;
     unicode_upper := fun c => [c] |}.

(** The simple lower-case mapping used by the matcher under
    [re.IGNORECASE].  Outside ASCII only U+0130 and U+212A lower to an
    ASCII letter; every other code point outside ASCII lowers to a code
    point outside ASCII, never compared equal to a pattern character of
    this script, and stands for itself here. *)
Definition sre_lower (c : codepoint) : codepoint :=
  if is_ascii_upper c then c + 32
  else if c =? cp_I_dot then 105
  else if c =? cp_kelvin then 107
  else c.

(** The extra lower-case equivalents the pattern compiler adds to a
    case-insensitive character: dotless i for [i], long s for [s]. *)
Definition sre_fixes (lo : codepoint) : list codepoint :=
  if lo =? 105 then [cp_dotless_i]
  else if lo =? 115 then [cp_long_s]
  else [].

Definition mem_cp (c : codepoint) (l : list codepoint) : bool :=
  existsb (N.eqb c) l.

(** A pattern character [x] against a text character [c], ignoring case. *)
Definition lit_ic (x c : codepoint) : bool :=
  let lo := sre_lower x in
  let lc := sre_lower c in
  (lc =? lo) || mem_cp lc (sre_fixes lo).

(** [str.isspace] on one code point, which is [\s]. *)
Definition is_space (c : codepoint) : bool :=
  ((9 <=? c) && (c <=? 13)) || ((28 <=? c) && (c <=? 32)) ||
  (c =? 133) || (c =? 160) || (c =? 5760) ||
  ((8192 <=? c) && (c <=? 8202)) || (c =? 8232) || (c =? 8233) ||
  (c =? 8239) || (c =? 8287) || (c =? 12288).

Section Regex.

Variable U : unicode_db.

Definition is_digit (c : codepoint) : bool :=
  if c <? 128 then is_ascii_digit c else unicode_decimal U c.

(** [\w]: alphanumeric or underscore. *)
Definition is_word (c : codepoint) : bool :=
  if c <? 128
  then is_ascii_upper c || is_ascii_lower c || is_ascii_digit c || (c =? 95)
  else unicode_alnum U c.

(** ** Regular expressions, as far as the script's patterns go *)

(** A member of a bracketed set. *)
Inductive setitem :=
| SChar (c : codepoint)
| SRange (lo hi : codepoint)
| SSpace.

(** Something that matches exactly one character. *)
Inductive atom :=
| ALit (c : codepoint)
| ADot
| ASpace
| ADigit
| ASet (items : list setitem).

Inductive node :=
| NAtom (a : atom)
| NOpt (a : atom)                (* a?  greedy *)
| NPlus (a : atom)               (* a+  greedy *)
| NGroup (k : nat) (a : atom)    (* (a{k}), the capturing group 1 *)
| NBoundary.                     (* \b *)

Definition regex := list node.

(** Every character of the range is lowered, its equivalents added, and
    the text character is lowered before it is looked up. *)
Definition range_ic (lo hi c : codepoint) : bool :=
  existsb (fun x => lit_ic x c)
          (map (fun i => lo + N.of_nat i) (seq 0 (N.to_nat (hi + 1 - lo)))).

Definition setitem_match (i : setitem) (c : codepoint) : bool :=
  match i with
  | SChar x => lit_ic x c
  | SRange lo hi => range_ic lo hi c
  | SSpace => is_space c
  end.

Definition atom_match (a : atom) (c : codepoint) : bool :=
  match a with
  | ALit x => lit_ic x c
  | ADot => negb (c =? 10)
  | ASpace => is_space c
  | ADigit => is_digit c
  | ASet items => existsb (fun i => setitem_match i c) items
  end.

(** [a{k}] at the head of [s]: the [k] characters and what follows. *)
Fixpoint rep_atom (a : atom) (k : nat) (s : pystr) : option (pystr * pystr) :=
  match k with
  | O => Some ([], s)
  | S k' =>
      match s with
      | c :: s' =>
          if atom_match a c
          then match rep_atom a k' s' with
               | Some (cap, rest) => Some (c :: cap, rest)
               | None => None
               end
          else None
      | [] => None
      end
  end.

Definition word_at (o : option codepoint) : bool :=
  match o with Some c => is_word c | None => false end.


(** [a*] followed by the continuation [k]: as many characters as
    possible first, one fewer on each failure. *)
Fixpoint star_greedy (R : Type) (a : atom)
    (k : option codepoint -> pystr -> option R)
    (prev : option codepoint) (s : pystr) : option R :=
  match s with
  | c :: s' =>
      if atom_match a c
      then match star_greedy a k (Some c) s' with
           | Some r => Some r
           | None => k prev s
           end
      else k prev s
  | [] => k prev s
  end.

(** The backtracking matcher anchored at the current position.  The
    result is the content of group 1 at the end of the match. *)
Fixpoint match_here (r : regex) (prev : option codepoint) (s : pystr)
    (g : option pystr) : option (option pystr) :=
  match r with
  | [] => Some g
  | NAtom a :: r' =>
      match s with
      | c :: s' => if atom_match a c then match_here r' (Some c) s' g else None
      | [] => None
      end
  | NOpt a :: r' =>
      match s with
      | c :: s' =>
          if atom_match a c
          then match match_here r' (Some c) s' g with
               | Some m => Some m
               | None => match_here r' prev s g
               end
          else match_here r' prev s g
      | [] => match_here r' prev s g
      end
  | NPlus a :: r' =>
      match s with
      | c :: s' =>
          if atom_match a c
          then star_greedy a (fun p t => match_here r' p t g) (Some c) s'
          else None
      | [] => None
      end
  | NGroup k a :: r' =>
      match rep_atom a k s with
      | Some (cap, rest) => match_here r' (last (map Some cap) prev) rest (Some cap)
      | None => None
      end
  | NBoundary :: r' =>
      if xorb (word_at prev) (word_at (hd_error s))
      then match_here r' prev s g
      else None
  end.

(** [re.search]: the first position, from the left, at which the
    pattern matches; the end of the text is a position too. *)
Fixpoint search_from (r : regex) (prev : option codepoint) (s : pystr)
    : option (option pystr) :=
  match match_here r prev s None with
  | Some m => Some m
  | None =>
      match s with
      | c :: s' => search_from r (Some c) s'
      | [] => None
      end
  end.

Definition re_search (r : regex) (text : pystr) : option (option pystr) :=
  search_from r None text.

(** The pieces the eight patterns are written with. *)
Definition chars (s : string) : regex := map (fun c => NAtom (ALit c)) (lit s).
Arguments chars s%_string.
Definition spaces : regex := [NPlus ASpace].                    (* \s+ *)
Definition digits : regex := [NPlus ADigit].                    (* \d+ *)
Definition colon_or_space : regex := [NPlus (ASet [SChar 58; SSpace])].  (* [:\s]+ *)
Definition five_letters : regex := [NGroup 5 (ASet [SRange 65 90])].     (* ([A-Z]{5}) *)

Definition patterns : list regex :=
  [ chars "Today" ++ [NOpt ADot; NOpt (ALit 115)] ++ spaces ++ chars "word"
      ++ spaces ++ chars "is" ++ spaces ++ five_letters;
    chars "Today" ++ [NOpt ADot; NOpt (ALit 115)] ++ spaces ++ chars "Word"
      ++ colon_or_space ++ five_letters;
    chars "answer" ++ spaces ++ chars "to" ++ spaces ++ chars "Wordle"
      ++ spaces ++ digits ++ spaces ++ chars "is" ++ spaces ++ five_letters;
    chars "answer" ++ spaces ++ chars "is" ++ spaces ++ five_letters;
    chars "solution" ++ spaces ++ chars "is" ++ spaces ++ five_letters;
    chars "Wordle" ++ spaces ++ digits ++ spaces ++ chars "answer"
      ++ colon_or_space ++ five_letters;
    [NBoundary] ++ five_letters ++ spaces ++ chars "is" ++ spaces
      ++ chars "the" ++ spaces ++ chars "answer";
    chars "The word is" ++ colon_or_space ++ five_letters ].

(** [str.upper], character by character. *)
Definition upper_char (c : codepoint) : pystr :=
  if is_ascii_lower c then [c - 32]
  else if c <? 128 then [c]
  else if c =? cp_dotless_i then [73]
  else if c =? cp_long_s then [83]
  else if c =? cp_I_dot then [cp_I_dot]
  else if c =? cp_kelvin then [cp_kelvin]
  else unicode_upper U c.

Definition str_upper (s : pystr) : pystr := flat_map upper_char s.

End Regex.

Local Close Scope N_scope.
Local Open Scope Z_scope.

(** ** Calendar arithmetic of [datetime] *)

(** A [datetime]: a calendar date and the time of day, in microseconds
    since midnight. *)
Record datetime := {
  dt_year : Z;
  dt_month : Z;
  dt_day : Z;
  dt_micros : Z
}.

Definition MAXYEAR : Z := 9999.
Definition DAY_MICROS : Z := 86400000000.

Definition is_leap (y : Z) : bool :=
  (y mod 4 =? 0) && (negb (y mod 100 =? 0) || (y mod 400 =? 0)).

Definition days_in_month (y m : Z) : Z :=
  if (m =? 2) && is_leap y then 29
  else nth (Z.to_nat m) [0; 31; 28; 31; 30; 31; 30; 31; 31; 30; 31; 30; 31] 0.

Definition days_before_month (y m : Z) : Z :=
  nth (Z.to_nat m) [0; 0; 31; 59; 90; 120; 151; 181; 212; 243; 273; 304; 334] 0
  + (if (2 <? m) && is_leap y then 1 else 0).

Definition days_before_year (y : Z) : Z :=
  let p := y - 1 in p * 365 + p / 4 - p / 100 + p / 400.

(** [toordinal]: 1 for 0001-01-01. *)
Definition ymd2ord (y m d : Z) : Z :=
  days_before_year y + days_before_month y m + d.

Definition toordinal (t : datetime) : Z :=
  ymd2ord (dt_year t) (dt_month t) (dt_day t).

(** What the constructor of [datetime] accepts. *)
Definition valid_ymd (y m d : Z) : bool :=
  (1 <=? y) && (y <=? MAXYEAR) && (1 <=? m) && (m <=? 12) &&
  (1 <=? d) && (d <=? days_in_month y m).

Definition valid_datetime (t : datetime) : bool :=
  valid_ymd (dt_year t) (dt_month t) (dt_day t) &&
  (0 <=? dt_micros t) && (dt_micros t <? DAY_MICROS).

(** [t + timedelta(days=1)]: the same time on the next calendar day;
    [None] is the [OverflowError] raised past 9999-12-31. *)
Definition add_one_day (t : datetime) : option datetime :=
  let y := dt_year t in
  let m := dt_month t in
  let d := dt_day t in
  if d <? days_in_month y m then
    Some {| dt_year := y; dt_month := m; dt_day := d + 1; dt_micros := dt_micros t |}
  else if m <? 12 then
    Some {| dt_year := y; dt_month := m + 1; dt_day := 1; dt_micros := dt_micros t |}
  else if y <? MAXYEAR then
    Some {| dt_year := y + 1; dt_month := 1; dt_day := 1; dt_micros := dt_micros t |}
  else None.

(** [(a - b).days]: the difference in microseconds, floored to days. *)
Definition sub_days (a b : datetime) : Z :=
  ((toordinal a - toordinal b) * DAY_MICROS + (dt_micros a - dt_micros b))
  / DAY_MICROS.

Definition WORDLE_START_DATE : datetime :=
  {| dt_year := 2021; dt_month := 6; dt_day := 19; dt_micros := 0 |}.

(** A non-negative number in [w] decimal digits, as [strftime] writes
    the fields of a date. *)
Fixpoint dec_digits (w : nat) (n : Z) : pystr :=
  match w with
  | O => []
  | S w' => dec_digits w' (n / 10) ++ [Z.to_N (48 + n mod 10)]
  end.

(** [t.strftime('%m/%d/%Y')]: month and day in two digits, the year in
    four. *)
Definition strftime_mdY (t : datetime) : pystr :=
  dec_digits 2 (dt_month t) ++ lit "/" ++ dec_digits 2 (dt_day t)
  ++ lit "/" ++ dec_digits 4 (dt_year t).

(** Reading such a string back: two digits, a slash, two digits, a
    slash, four digits. *)
Definition digit_val (c : codepoint) : option Z :=
  if is_ascii_digit c then Some (Z.of_N c - 48) else None.

Fixpoint number_of (s : pystr) (acc : Z) : option Z :=
  match s with
  | [] => Some acc
  | c :: s' =>
      match digit_val c with
      | Some v => number_of s' (acc * 10 + v)
      | None => None
      end
  end.

Definition parse_mdY (s : pystr) : option (Z * Z * Z) :=
  match s with
  | [m1; m2; s1; d1; d2; s2; y1; y2; y3; y4] =>
      if (s1 =? 47)%N && (s2 =? 47)%N then
        match number_of [m1; m2] 0, number_of [d1; d2] 0,
              number_of [y1; y2; y3; y4] 0 with
        | Some m, Some d, Some y => Some (y, m, d)
        | _, _, _ => None
        end
      else None
  | _ => None
  end.

(** A string that denotes a date of the calendar. *)
Definition is_calendar_date (s : pystr) : bool :=
  match parse_mdY s with
  | Some (y, m, d) => valid_ymd y m d
  | None => false
  end.

(** The game number and the address of the review, lines 17 to 28:
    [tomorrow] comes from the first reading of the clock, [today] from
    the second. *)
Definition game_number_of (tomorrow : datetime) : Z :=
  sub_days tomorrow WORDLE_START_DATE.

Definition review_url (today : datetime) (game_number : Z) : pystr :=
  lit "https://www.nytimes.com/" ++ str_of_int (dt_year today) ++ lit "/"
  ++ zfill 2 (str_of_int (dt_month today)) ++ lit "/"
  ++ zfill 2 (str_of_int (dt_day today))
  ++ lit "/crosswords/wordle-review-" ++ str_of_int game_number ++ lit ".html".

(** ** The script's view of its collaborators *)

(** An exception raised by a collaborator: an instance of [Exception],
    with its class name and the text [str(e)] that the handlers print.
    Signals outside [Exception] (a keyboard interrupt, the cancellation
    of the task) are not part of this model, so [except Exception] and
    a bare [except] catch the same things. *)
Record exc := { exc_class : string; exc_text : pystr }.

Inductive result (A : Type) :=
| Ok (a : A)
| Err (e : exc).
Arguments Err {A} e.

(** Browsers, contexts, pages and elements are opaque objects; the
    script only passes them back to the library. *)
Definition handle := N.

(** The values the script stores in a [dict]. *)
Inductive pyval :=
| VStr (s : pystr)
| VInt (n : Z).

(** A [dict] with string keys, in insertion order. *)
Definition dict := list (pystr * pyval).

(** What [subprocess.run(..., capture_output=True, text=True)] returns. *)
Record completed := {
  returncode : Z;
  stdout : pystr;
  stderr : pystr
}.

(** One constructor per call that leaves the script, indexed by the
    type of its answer.  A call made under [await] or one that touches
    the outside world answers with a [result]: the value, or the
    exception raised. *)
Inductive event : Type -> Type :=
| Print (line : pystr) : event unit
| Now : event datetime
| PlaywrightStart : event unit
| PlaywrightStop : event unit
| ConnectOverCDP (endpoint : pystr) : event (result handle)
| Contexts (browser : handle) : event (list handle)
| BrowserClose (browser : handle) : event (result unit)
| NewPage (context : handle) : event (result handle)
| Goto (page : handle) (url : pystr) (timeout : Z) (wait_until : pystr)
    : event (result unit)
| WaitForTimeout (page : handle) (ms : Z) : event (result unit)
| WaitForSelector (page : handle) (selector : pystr) (timeout : Z)
    : event (result (option handle))
| Click (element : handle) : event (result unit)
| TextContent (page : handle) (selector : pystr) : event (result (option pystr))
| Content (page : handle) : event (result pystr)
| PageClose (page : handle) : event (result unit)
| OsName : event pystr
| OsSystem (command : pystr) : event (result Z)
| ScriptDirname : event pystr
| ScriptAbsDirname : event pystr
| PathJoin (a b : pystr) : event pystr
| WriteFile (path encoding content : pystr) : event (result unit)
| SubprocessRun (args : list pyval) (cwd : pystr) : event (result completed).

(** A piece of the script: it returns, raises, or makes a call and
    goes on with the answer. *)
Inductive prog (R : Type) : Type :=
| Ret (r : R)
| Throw (e : exc)
| Do (X : Type) (ev : event X) (k : X -> prog R).
Arguments Throw {R} e.
Arguments Do {R X} ev k.

Fixpoint bind (R S : Type) (p : prog R) (k : R -> prog S) : prog S :=
  match p with
  | Ret r => k r
  | Throw e => Throw e
  | Do ev c => Do ev (fun x => bind (c x) k)
  end.

Declare Scope prog_scope.
Delimit Scope prog_scope with prog.
Notation "x <- p ;; k" := (bind p (fun x => k))
  (at level 61, p at next level, right associativity) : prog_scope.
Notation "p ;; k" := (bind p (fun _ => k))
  (at level 61, right associativity) : prog_scope.
Local Open Scope prog_scope.

(** [try: p  except Exception as e: h e]. *)
Fixpoint try_except (R : Type) (p : prog R) (h : exc -> prog R) : prog R :=
  match p with
  | Ret r => Ret r
  | Throw e => h e
  | Do ev c => Do ev (fun x => try_except (c x) h)
  end.

(** [p] and then [f], however [p] ends: the exit of a [with] block. *)
Fixpoint finally (R : Type) (p : prog R) (f : prog unit) : prog R :=
  match p with
  | Ret r => f ;; Ret r
  | Throw e => f ;; Throw e
  | Do ev c => Do ev (fun x => finally (c x) f)
  end.

(** A call whose answer is used as it is. *)
Definition ask (X : Type) (ev : event X) : prog X := Do ev (fun x => Ret x).

(** A call that may raise. *)
Definition call (X : Type) (ev : event (result X)) : prog X :=
  Do ev (fun r => match r with Ok x => Ret x | Err e => Throw e end).

Definition print (line : pystr) : prog unit := ask (Print line).

(** A block either falls through to the code after it with a value,
    or executes a [return] of the enclosing function. *)
Inductive flow (A R : Type) :=
| Next (a : A)
| Return (r : R).
Arguments Next {A R} a.
Arguments Return {A R} r.

(** ** Runs *)

(** One call and its answer. *)
Inductive io := IO (X : Type) (ev : event X) (answer : X).

Definition trace := list io.

Inductive outcome (R : Type) :=
| Returned (r : R)
| Raised (e : exc).
Arguments Raised {R} e.

(** [runs p tr o]: [p] can make exactly the calls of [tr], receiving
    the answers recorded there, and end with [o]. *)
Fixpoint runs (R : Type) (p : prog R) (tr : trace) (o : outcome R) : Prop :=
  match p with
  | Ret r => tr = [] /\ o = Returned r
  | Throw e => tr = [] /\ o = Raised e
  | Do ev k => exists x tr', tr = IO ev x :: tr' /\ runs (k x) tr' o
  end.

(** An environment answers every call, knowing what happened before. *)
Definition world := trace -> forall X : Type, event X -> X.

(** The run of [p] in the environment [w], after the calls of [past]
    (latest first). *)
Fixpoint exec (R : Type) (w : world) (p : prog R) (past : trace)
    : trace * outcome R :=
  match p with
  | Ret r => ([], Returned r)
  | Throw e => ([], Raised e)
  | Do ev k =>
      let x := w past _ ev in
      let (tr, o) := exec w (k x) (IO ev x :: past) in
      (IO ev x :: tr, o)
  end.

Definition run (R : Type) (w : world) (p : prog R) : trace * outcome R :=
  exec w p [].

(** ** The script *)

(** ["=" * 70] and ["-" * 70]. *)
Definition rule (c : string) : pystr := str_mul (lit c) 70.
Arguments rule c%_string.

Definition overflow_error : exc :=
  {| exc_class := "OverflowError"; exc_text := lit "date value out of range" |}.
Definition type_error : exc :=
  {| exc_class := "TypeError";
     exc_text := lit "expected string or bytes-like object, got 'NoneType'" |}.
Definition attribute_error : exc :=
  {| exc_class := "AttributeError";
     exc_text := lit "'NoneType' object has no attribute 'upper'" |}.
Definition key_error (key : pystr) : exc :=
  {| exc_class := "KeyError"; exc_text := lit "'" ++ key ++ lit "'" |}.

Fixpoint dict_get (d : dict) (key : pystr) : option pyval :=
  match d with
  | [] => None
  | (k, v) :: d' => if pystr_eqb k key then Some v else dict_get d' key
  end.

(** [d[key]]. *)
Definition getitem (d : dict) (key : pystr) : prog pyval :=
  match dict_get d key with
  | Some v => Ret v
  | None => Throw (key_error key)
  end.

(** A value inside an f-string. *)
Definition format_val (v : pyval) : pystr :=
  match v with
  | VStr s => s
  | VInt n => str_of_int n
  end.

Definition reveal_selectors : list pystr :=
  [ lit "text=" ++ dq ++ lit "Click to reveal" ++ dq;
    lit "button:has-text(" ++ dq ++ lit "Click to reveal" ++ dq ++ lit ")";
    lit "button:has-text(" ++ dq ++ lit "reveal" ++ dq ++ lit ")";
    lit "[aria-label*=" ++ dq ++ lit "reveal" ++ dq ++ lit "]";
    lit ".reveal-button";
    lit "button.spoiler-reveal" ].

(** How one turn of the selector loop ends, with the value of
    [clicked] at that point. *)
Inductive turn :=
| Continue (clicked : bool)
| Break (clicked : bool).

(** Lines 98 to 109.  The assignment [clicked = True] sits in the
    middle of the [try] body: an exception before it leaves [clicked]
    as it was, one after it (from the wait) leaves it set; in both
    cases the loop goes on with the next selector. *)
Fixpoint reveal_loop (page : handle) (selectors : list pystr) (clicked : bool)
    : prog bool :=
  match selectors with
  | [] => Ret clicked
  | selector :: rest =>
      t <- try_except
             (element <- call (WaitForSelector page selector 3000);;
              match element with
              | Some el =>
                  call (Click el);;
                  print (lit "[OK] Clicked reveal button!");;
                  try_except
                    (call (WaitForTimeout page 1000);; Ret (Break true))
                    (fun _ => Ret (Continue true))
              | None => Ret (Continue clicked)
              end)
             (fun _ => Ret (Continue clicked));;
      match t with
      | Break c => Ret c
      | Continue c => reveal_loop page rest c
      end
  end.

(** Lines 86 to 115. *)
Definition reveal (page : handle) : prog unit :=
  try_except
    (clicked <- reveal_loop page reveal_selectors false;;
     if negb clicked
     then print (lit "[WARNING] Could not find reveal button, trying to extract anyway...")
     else Ret tt)
    (fun e => print (lit "[WARNING] Error clicking reveal: " ++ exc_text e)).

Section Script.

Variable U : unicode_db.

(** Lines 134 to 140: the first pattern found in the text gives the
    word.  [re.search] on a text that is [None] raises. *)
Fixpoint find_word (pats : list regex) (page_text : option pystr)
    : prog (option pystr) :=
  match pats with
  | [] => Ret None
  | pattern :: rest =>
      match page_text with
      | None => Throw type_error
      | Some text =>
          match re_search U pattern text with
          | Some (Some g) =>
              let word := str_upper U g in
              print (lit "[OK] Found word: " ++ word);;
              Ret (Some word)
          | Some None => Throw attribute_error
          | None => find_word rest page_text
          end
      end
  end.

(** Lines 147 to 160. *)
Definition save_debug_page (page : handle) (page_text : option pystr)
    : prog unit :=
  try_except
    (html <- call (Content page);;
     dir <- ask ScriptDirname;;
     debug_path <- ask (PathJoin dir (lit "debug-page.html"));;
     call (WriteFile debug_path (lit "utf-8") html);;
     print ([10%N] ++ lit "Page saved to: " ++ debug_path);;
     print (lit "First 1000 chars of page text:");;
     print (rule "-");;
     print (match page_text with
            | Some (c :: text) => firstn 1000 (c :: text)
            | _ => lit "No text found"
            end);;
     print (rule "-"))
    (fun e => print (lit "Could not save debug info: " ++ exc_text e)).

(** Lines 183 to 194. *)
Definition close_browser (browser : handle) : prog unit :=
  call (BrowserClose browser);;
  try_except
    (name <- ask OsName;;
     (if pystr_eqb name (lit "nt")
      then call (OsSystem (lit "taskkill /F /IM msedge.exe >nul 2>&1"))
      else call (OsSystem (lit "pkill -f msedge")));;
     print (lit "[OK] Browser closed"))
    (fun e => print (lit "[WARNING] Could not close browser: " ++ exc_text e)).

(** Lines 76 to 200: the body of the [try] around the page. *)
Definition read_page (tomorrow : datetime) (game_number : Z) (url : pystr)
    (browser page : handle) : prog (option dict) :=
  print (lit "[1/4] Navigating to NYT review article...");;
  call (Goto page url 30000 (lit "domcontentloaded"));;
  call (WaitForTimeout page 2000);;
  print (lit "[2/4] Page loaded successfully!");;
  print (lit "[3/4] Looking for 'Click to reveal' button...");;
  reveal page;;
  print (lit "[4/4] Extracting Wordle answer from page...");;
  page_text <- call (TextContent page (lit "body"));;
  word <- find_word patterns page_text;;
  match word with
  | Some (c :: w) =>
      let word := c :: w in
      let date_str := strftime_mdY tomorrow in
      print [];;
      print (rule "=");;
      print (lit "INFORMATION GATHERED");;
      print (rule "=");;
      print (lit "Word:        " ++ word);;
      print (lit "Game:        #" ++ str_of_int game_number);;
      print (lit "Date:        " ++ date_str);;
      print (rule "=");;
      print [];;
      call (PageClose page);;
      print (lit "[OK] Browser tab closed");;
      close_browser browser;;
      Ret (Some [ (lit "word", VStr word);
                  (lit "game_number", VInt game_number);
                  (lit "date", VStr date_str) ])
  | _ =>
      print [];;
      print (lit "[ERROR] Could not find the Wordle answer on the page.");;
      print (lit "The page might have a different format than expected.");;
      save_debug_page page page_text;;
      print [];;
      Ret None
  end.

(** Lines 202 to 215: the handler of that [try]. *)
Definition on_error (browser : handle) (e : exc) : prog (option dict) :=
  print (lit "[ERROR] " ++ exc_text e);;
  print [];;
  try_except
    (call (BrowserClose browser);;
     name <- ask OsName;;
     (if pystr_eqb name (lit "nt")
      then call (OsSystem (lit "taskkill /F /IM msedge.exe >nul 2>&1"))
      else call (OsSystem (lit "pkill -f " ++ dq
                           ++ lit "msedge.*remote-debugging-port=9222" ++ dq)));;
     Ret tt)
    (fun _ => Ret tt);;
  Ret None.

(** Lines 42 to 62. *)
Definition connect : prog (flow handle (option dict)) :=
  try_except
    (print (lit "Connecting to your browser...");;
     browser <- call (ConnectOverCDP (lit "http://localhost:9222"));;
     print (lit "[OK] Connected to browser!");;
     Ret (Next browser))
    (fun _ =>
     print [];;
     print (rule "=");;
     print (lit "[ERROR] Could not connect to browser");;
     print (rule "=");;
     print [];;
     print (lit "Please start Edge or Chrome with remote debugging enabled:");;
     print [];;
     print (lit "  Option 1 - Edge (recommended):");;
     print (lit "    Run: start-edge-debug.bat");;
     print [];;
     print (lit "  Option 2 - Chrome:");;
     print (lit "    Run: start-chrome-debug.bat");;
     print [];;
     print (rule "=");;
     Ret (Return None)).

(** Lines 41 to 215: the body of the [async with] block. *)
Definition session (tomorrow : datetime) (game_number : Z) (url : pystr)
    : prog (option dict) :=
  c <- connect;;
  match c with
  | Return r => Ret r
  | Next browser =>
      contexts <- ask (Contexts browser);;
      match contexts with
      | context :: _ =>
          page <- call (NewPage context);;
          try_except (read_page tomorrow game_number url browser page)
                     (on_error browser)
      | [] =>
          print (lit "[ERROR] No browser context found");;
          call (BrowserClose browser);;
          Ret None
      end
  end.

Definition fetch_nyt_wordle : prog (option dict) :=
  now <- ask Now;;
  tomorrow <- match add_one_day now with
              | Some t => Ret t
              | None => Throw overflow_error
              end;;
  let game_number := game_number_of tomorrow in
  today <- ask Now;;
  let url := review_url today game_number in
  print (rule "=");;
  print (lit "NYT WORDLE WORD FETCHER");;
  print (rule "=");;
  print (lit "Tomorrow's date: " ++ strftime_mdY tomorrow);;
  print (lit "Game number: #" ++ str_of_int game_number);;
  print (lit "Review URL: " ++ url);;
  print [];;
  print (lit "Opening browser... (you may need to log in to NYT)");;
  print (rule "=");;
  print [];;
  ask PlaywrightStart;;
  finally (session tomorrow game_number url) (ask PlaywrightStop).

(** Lines 217 to 262. *)
Definition add_word_to_database (word_data : dict) : prog bool :=
  try_except
    (print (rule "=");;
     word <- getitem word_data (lit "word");;
     print (lit "[5/5] Adding " ++ format_val word ++ lit " to database...");;
     print (rule "=");;
     print [];;
     script_dir <- ask ScriptAbsDirname;;
     word <- getitem word_data (lit "word");;
     date <- getitem word_data (lit "date");;
     result <- call (SubprocessRun
                       [VStr (lit "node"); VStr (lit "add-word.mjs"); word; date]
                       script_dir);;
     print (stdout result);;
     (match stderr result with
      | [] => Ret tt
      | _ :: _ => print (stderr result)
      end);;
     if negb (returncode result =? 0) then
       let combined_output := stdout result ++ stderr result in
       if str_in (lit "already exists") combined_output
          || str_in (lit "No changes made") combined_output
       then
         print [];;
         print (rule "=");;
         print (lit "[INFO] Word was not added - already exists in database");;
         print (rule "=");;
         Ret false
       else
         print [];;
         print (rule "=");;
         print (lit "[ERROR] Failed to add word to database");;
         print (rule "=");;
         Ret false
     else Ret true)
    (fun e => print (lit "[ERROR] " ++ exc_text e);; Ret false).

(** Lines 264 to 287. *)
Definition main : prog unit :=
  print [];;
  word_data <- fetch_nyt_wordle;;
  match word_data with
  | Some (item :: items) =>
      let word_data := item :: items in
      added <- add_word_to_database word_data;;
      print [];;
      print (rule "=");;
      print (lit "FINAL RESULT");;
      print (rule "=");;
      word <- getitem word_data (lit "word");;
      (if added : bool
       then print (lit "SUCCESS: " ++ format_val word
                   ++ lit " added to database and committed to GitHub!")
       else print (lit "COMPLETE: " ++ format_val word
                   ++ lit " was already in the database, no changes made"));;
      print (rule "=");;
      print []
  | _ =>
      print [];;
      print (lit "[FAILED] Could not fetch Wordle word");;
      Ret tt
  end.

End Script.

(** ** What a trace shows *)

(** Each observer reads one kind of call off a trace, in order. *)
Definition printed (i : io) : list pystr :=
  match i with
  | IO ev _ => match ev with Print line => [line] | _ => [] end
  end.

Definition clock_read (i : io) : list datetime :=
  match i with
  | IO ev x =>
      match ev in event X return X -> list datetime with
      | Now => fun t => [t]
      | _ => fun _ => []
      end x
  end.

Definition connect_answer (i : io) : list (result handle) :=
  match i with
  | IO ev x =>
      match ev in event X return X -> list (result handle) with
      | ConnectOverCDP _ => fun r => [r]
      | _ => fun _ => []
      end x
  end.

Definition page_opened (i : io) : list handle :=
  match i with
  | IO ev x =>
      match ev in event X return X -> list handle with
      | NewPage _ => fun r => match r with Ok pg => [pg] | Err _ => [] end
      | _ => fun _ => []
      end x
  end.

Definition new_page_call (i : io) : list handle :=
  match i with
  | IO ev _ => match ev with NewPage c => [c] | _ => [] end
  end.

Definition goto_url (i : io) : list pystr :=
  match i with
  | IO ev _ => match ev with Goto _ url _ _ => [url] | _ => [] end
  end.

Definition selector_tried (i : io) : list pystr :=
  match i with
  | IO ev _ => match ev with WaitForSelector _ sel _ => [sel] | _ => [] end
  end.

(** The clicks that went through. *)
Definition clicked_ok (i : io) : list handle :=
  match i with
  | IO ev x =>
      match ev in event X return X -> list handle with
      | Click el => fun r => match r with Ok _ => [el] | Err _ => [] end
      | _ => fun _ => []
      end x
  end.

Definition text_call (i : io) : list pystr :=
  match i with
  | IO ev _ => match ev with TextContent _ sel => [sel] | _ => [] end
  end.

(** The page text handed to the extraction, when the call returned. *)
Definition text_read (i : io) : list (option pystr) :=
  match i with
  | IO ev x =>
      match ev in event X return X -> list (option pystr) with
      | TextContent _ _ => fun r => match r with Ok t => [t] | Err _ => [] end
      | _ => fun _ => []
      end x
  end.

(** A call that closes something, and whether it went through. *)
Inductive closing :=
| ClosePage (page : handle) (ok : bool)
| CloseBrowser (browser : handle) (ok : bool).

Definition succeeded (A : Type) (r : result A) : bool :=
  match r with Ok _ => true | Err _ => false end.

Definition close_call (i : io) : list closing :=
  match i with
  | IO ev x =>
      match ev in event X return X -> list closing with
      | PageClose pg => fun r => [ClosePage pg (succeeded r)]
      | BrowserClose b => fun r => [CloseBrowser b (succeeded r)]
      | _ => fun _ => []
      end x
  end.

Definition subprocess_args (i : io) : list (list pyval) :=
  match i with
  | IO ev _ => match ev with SubprocessRun args _ => [args] | _ => [] end
  end.

Definition subprocess_answer (i : io) : list (result completed) :=
  match i with
  | IO ev x =>
      match ev in event X return X -> list (result completed) with
      | SubprocessRun _ _ => fun r => [r]
      | _ => fun _ => []
      end x
  end.

(** The long wait after the navigation, line 81. *)
Definition settle_wait (i : io) : list bool :=
  match i with
  | IO ev x =>
      match ev in event X return X -> list bool with
      | WaitForTimeout _ ms => fun r => if ms =? 2000 then [succeeded r] else []
      | _ => fun _ => []
      end x
  end.

Definition goto_answer (i : io) : list bool :=
  match i with
  | IO ev x =>
      match ev in event X return X -> list bool with
      | Goto _ _ _ _ => fun r => [succeeded r]
      | _ => fun _ => []
      end x
  end.

Definition console (tr : trace) : list pystr := flat_map printed tr.
Definition clock_reads (tr : trace) : list datetime := flat_map clock_read tr.
Definition connect_answers (tr : trace) := flat_map connect_answer tr.
Definition pages_opened (tr : trace) : list handle := flat_map page_opened tr.
Definition new_page_calls (tr : trace) : list handle := flat_map new_page_call tr.
Definition goto_urls (tr : trace) : list pystr := flat_map goto_url tr.
Definition goto_answers (tr : trace) : list bool := flat_map goto_answer tr.
Definition settle_waits (tr : trace) : list bool := flat_map settle_wait tr.
Definition selectors_tried (tr : trace) : list pystr := flat_map selector_tried tr.
Definition clicks_ok (tr : trace) : list handle := flat_map clicked_ok tr.
Definition text_calls (tr : trace) : list pystr := flat_map text_call tr.
Definition texts_read (tr : trace) : list (option pystr) := flat_map text_read tr.
Definition close_calls (tr : trace) : list closing := flat_map close_call tr.
Definition subprocess_calls (tr : trace) : list (list pyval) :=
  flat_map subprocess_args tr.
Definition subprocess_answers (tr : trace) : list (result completed) :=
  flat_map subprocess_answer tr.

(** Every reading of the clock is a [datetime] that the constructor
    accepts. *)
Definition clock_valid (tr : trace) : bool :=
  forallb valid_datetime (clock_reads tr).

(** The calls of the reveal stage, lines 98 to 112. *)
Definition reveal_call (i : io) : bool :=
  match i with
  | IO ev _ =>
      match ev with
      | Print _ => true
      | WaitForSelector _ _ _ => true
      | Click _ => true
      | WaitForTimeout _ ms => ms =? 1000
      | _ => false
      end
  end.

Definition is_none (A : Type) (o : option A) : bool :=
  match o with None => true | Some _ => false end.

(** No pattern of the list is found in the text. *)
Definition no_pattern_matches (U : unicode_db) (text : pystr) : bool :=
  forallb (fun p => is_none (re_search U p text)) patterns.

(** The letters a word can be made of after [upper()]: A to Z, and the
    two capital letters outside ASCII that lower to an ASCII letter,
    U+0130 and U+212A. *)
Definition is_capital_letter (c : codepoint) : bool :=
  is_ascii_upper c || (c =? cp_I_dot)%N || (c =? cp_kelvin)%N.

Definition is_ascii (c : codepoint) : bool := (c <? 128)%N.

(** The lines the script prints about its failures. *)
Definition msg_no_answer : pystr :=
  lit "[ERROR] Could not find the Wordle answer on the page.".
Definition msg_no_connection : pystr :=
  lit "[ERROR] Could not connect to browser".
Definition msg_guidance : list pystr :=
  [ lit "Please start Edge or Chrome with remote debugging enabled:";
    [];
    lit "  Option 1 - Edge (recommended):";
    lit "    Run: start-edge-debug.bat";
    [];
    lit "  Option 2 - Chrome:";
    lit "    Run: start-chrome-debug.bat" ].
Definition msg_no_button : pystr :=
  lit "[WARNING] Could not find reveal button, trying to extract anyway...".
Definition msg_failed : pystr := lit "[FAILED] Could not fetch Wordle word".
Definition notice_duplicate : list pystr :=
  [ []; rule "=";
    lit "[INFO] Word was not added - already exists in database"; rule "=" ].
Definition notice_failure : list pystr :=
  [ []; rule "="; lit "[ERROR] Failed to add word to database"; rule "=" ].

(** [l] ends with [suffix]. *)
Definition ends_with (A : Type) (l suffix : list A) : Prop :=
  exists front, l = front ++ suffix.

(** A closing call that went through. *)
Definition closing_ok (c : closing) : bool :=
  match c with
  | ClosePage _ ok => ok
  | CloseBrowser _ ok => ok
  end.

(** What the subprocess output is checked for, line 245. *)
Definition looks_duplicate (r : completed) : bool :=
  str_in (lit "already exists") (stdout r ++ stderr r)
  || str_in (lit "No changes made") (stdout r ++ stderr r).

(** ** Environments to run the script in *)

Definition timeout_error : exc :=
  {| exc_class := "TimeoutError"; exc_text := lit "Timeout 3000ms exceeded." |}.
Definition connection_refused : exc :=
  {| exc_class := "Error";
     exc_text := lit "connect ECONNREFUSED 127.0.0.1:9222" |}.

(** What varies from one environment to the next; everything else
    answers without an error. *)
Record scenario := {
  sc_now : datetime;
  sc_connects : bool;
  sc_button : bool;
  sc_text : option pystr;
  sc_exit : Z;
  sc_stdout : pystr;
  sc_stderr : pystr
}.

Definition world_of (sc : scenario) : world :=
  fun _ X ev =>
    match ev in event X return X with
    | Print _ => tt
    | Now => sc_now sc
    | PlaywrightStart => tt
    | PlaywrightStop => tt
    | ConnectOverCDP _ => if sc_connects sc then Ok 1%N else Err connection_refused
    | Contexts _ => [2%N]
    | BrowserClose _ => Ok tt
    | NewPage _ => Ok 3%N
    | Goto _ _ _ _ => Ok tt
    | WaitForTimeout _ _ => Ok tt
    | WaitForSelector _ _ _ => if sc_button sc then Ok (Some 4%N) else Err timeout_error
    | Click _ => Ok tt
    | TextContent _ _ => Ok (sc_text sc)
    | Content _ => Ok (lit "<html></html>")
    | PageClose _ => Ok tt
    | OsName => lit "nt"
    | OsSystem _ => Ok 0
    | ScriptDirname => lit "scripts"
    | ScriptAbsDirname => lit "C:\repo\scripts"
    | PathJoin a b => a ++ lit "\" ++ b
    | WriteFile _ _ _ => Ok tt
    | SubprocessRun _ _ =>
        Ok {| returncode := sc_exit sc; stdout := sc_stdout sc; stderr := sc_stderr sc |}
    end.

Definition new_years_eve : datetime :=
  {| dt_year := 2025; dt_month := 12; dt_day := 31; dt_micros := 34200000000 |}.

(** The review page gives the answer in lower case, the button is
    there, the word is new to the database. *)
Definition sunny_day : scenario :=
  {| sc_now := new_years_eve;
     sc_connects := true;
     sc_button := true;
     sc_text := Some (lit "Spoilers ahead. Today's word is fruit, a noun.");
     sc_exit := 0;
     sc_stdout := lit "Added FRUIT";
     sc_stderr := [] |}.

(** The same day, a little before midnight. *)
Definition sunny_night : scenario :=
  {| sc_now := {| dt_year := 2025; dt_month := 12; dt_day := 31;
                  dt_micros := 86399000000 |};
     sc_connects := true;
     sc_button := false;
     sc_text := Some (lit "The word is: CRANE");
     sc_exit := 0;
     sc_stdout := [];
     sc_stderr := [] |}.

(** The page has no sentence that any pattern recognises. *)
Definition unknown_format : scenario :=
  {| sc_now := new_years_eve;
     sc_connects := true;
     sc_button := true;
     sc_text := Some (lit "Subscribe to read the Wordle review.");
     sc_exit := 0;
     sc_stdout := [];
     sc_stderr := [] |}.

(** No browser listens on the debugging port. *)
Definition no_browser : scenario :=
  {| sc_now := new_years_eve;
     sc_connects := false;
     sc_button := true;
     sc_text := None;
     sc_exit := 0;
     sc_stdout := [];
     sc_stderr := [] |}.

(** No selector finds the button, the answer is in the text anyway. *)
Definition no_button : scenario :=
  {| sc_now := new_years_eve;
     sc_connects := true;
     sc_button := false;
     sc_text := Some (lit "The answer is crane.");
     sc_exit := 0;
     sc_stdout := [];
     sc_stderr := [] |}.

(** The word is in the database already. *)
Definition duplicate_word : scenario :=
  {| sc_now := new_years_eve;
     sc_connects := true;
     sc_button := true;
     sc_text := Some (lit "Today's word is fruit");
     sc_exit := 1;
     sc_stdout := lit "FRUIT already exists for 01/01/2026";
     sc_stderr := [] |}.

Definition fruit_record : dict :=
  [ (lit "word", VStr (lit "FRUIT"));
    (lit "game_number", VInt 1657);
    (lit "date", VStr (lit "01/01/2026")) ].

(** The calendar date of a [datetime]. *)
Definition date_of (t : datetime) : Z * Z * Z :=
  (dt_year t, dt_month t, dt_day t).

(** A run shows the game number and the address of the review: on the
    console, in the navigation when there is one, and in the record
    when one is returned. *)
Definition announces (tr : trace) (o : outcome (option dict))
    (game_number : Z) (url : pystr) : Prop :=
  In (lit "Game number: #" ++ str_of_int game_number) (console tr)
  /\ In (lit "Review URL: " ++ url) (console tr)
  /\ (forall u, In u (goto_urls tr) -> u = url)
  /\ (forall d, o = Returned (Some d) ->
      dict_get d (lit "game_number") = Some (VInt game_number)).

(** Every page that a run opened is closed by the run, and so is the
    browser. *)
Definition closes_what_it_opens (U : unicode_db) : Prop :=
  forall tr o,
    runs (fetch_nyt_wordle U) tr o ->
    forall pg, In pg (pages_opened tr) ->
    In (ClosePage pg true) (close_calls tr)
    /\ exists b, In (CloseBrowser b true) (close_calls tr).

(** The runs of the script in the environments above. *)
Definition sunny_fetch : trace * outcome (option dict) :=
  run (world_of sunny_day) (fetch_nyt_wordle ascii_db).
Definition night_fetch : trace * outcome (option dict) :=
  run (world_of sunny_night) (fetch_nyt_wordle ascii_db).
Definition unknown_format_fetch : trace * outcome (option dict) :=
  run (world_of unknown_format) (fetch_nyt_wordle ascii_db).
Definition no_button_fetch : trace * outcome (option dict) :=
  run (world_of no_button) (fetch_nyt_wordle ascii_db).
Definition sunny_main : trace * outcome unit :=
  run (world_of sunny_day) (main ascii_db).
Definition unknown_format_main : trace * outcome unit :=
  run (world_of unknown_format) (main ascii_db).
Definition no_browser_main : trace * outcome unit :=
  run (world_of no_browser) (main ascii_db).
Definition duplicate_add : trace * outcome bool :=
  run (world_of duplicate_word) (add_word_to_database fruit_record).
Definition sunny_add : trace * outcome bool :=
  run (world_of sunny_day) (add_word_to_database fruit_record).


(** The answers to [browser.contexts]. *)
Definition contexts_answer (i : io) : list (list handle) :=
  match i with
  | IO ev x =>
      match ev in event X return X -> list (list handle) with
      | Contexts _ => fun l => [l]
      | _ => fun _ => []
      end x
  end.

Definition contexts_answers (tr : trace) : list (list handle) :=
  flat_map contexts_answer tr.

Definition msg_no_context : pystr := lit "[ERROR] No browser context found".

Definition msg_clicked : pystr := lit "[OK] Clicked reveal button!".

(** Capital ASCII letters written small; everything else as it is. *)
Definition small (c : codepoint) : codepoint :=
  if is_ascii_upper c then (c + 32)%N else c.

Definition small_group (g : option pystr) : option pystr :=
  option_map (map small) g.

(** Environments in which one more thing goes wrong. *)
Definition navigation_error : exc :=
  {| exc_class := "TimeoutError";
     exc_text := lit "Timeout 30000ms exceeded." |}.

Definition goto_fails (w : world) : world :=
  fun past X ev =>
    match ev in event X return X -> X with
    | Goto _ _ _ _ => fun _ => Err navigation_error
    | _ => fun x => x
    end (w past X ev).

Definition without_context (w : world) : world :=
  fun past X ev =>
    match ev in event X return X -> X with
    | Contexts _ => fun _ => []
    | _ => fun x => x
    end (w past X ev).

(** The page has no body text to give. *)
Definition empty_page : scenario :=
  {| sc_now := new_years_eve;
     sc_connects := true;
     sc_button := true;
     sc_text := None;
     sc_exit := 0;
     sc_stdout := [];
     sc_stderr := [] |}.

Definition failed_navigation : trace * outcome (option dict) :=
  run (goto_fails (world_of sunny_day)) (fetch_nyt_wordle ascii_db).
Definition no_context_fetch : trace * outcome (option dict) :=
  run (without_context (world_of sunny_day)) (fetch_nyt_wordle ascii_db).
Definition empty_page_fetch : trace * outcome (option dict) :=
  run (world_of empty_page) (fetch_nyt_wordle ascii_db).
Definition empty_record_add : trace * outcome bool :=
  run (world_of sunny_day) (add_word_to_database []).
Definition no_button_reveal : trace * outcome unit :=
  run (world_of no_button) (reveal 3%N).

Definition new_years_day : datetime :=
  {| dt_year := 2026; dt_month := 1; dt_day := 1; dt_micros := 34200000000 |}.

(** The exceptions that [page.goto] raised. *)
Definition goto_error (i : io) : list exc :=
  match i with
  | IO ev x =>
      match ev in event X return X -> list exc with
      | Goto _ _ _ _ =>
          fun r => match r with Err e => [e] | Ok _ => [] end
      | _ => fun _ => []
      end x
  end.

Definition goto_errors (tr : trace) : list exc := flat_map goto_error tr.

(** * Properties *)

Arguments lit : simpl never.
Arguments rule : simpl never.
Arguments str_of_int : simpl never.
Arguments strftime_mdY : simpl never.
Arguments review_url : simpl never.
Arguments game_number_of : simpl never.

(** ** Runs of composed programs *)

Lemma runs_bind_inv (R S : Type) (p : prog R) (k : R -> prog S) tr o :
  runs (bind p k) tr o ->
  (exists tr1 tr2 r,
      runs p tr1 (Returned r) /\ runs (k r) tr2 o /\ tr = tr1 ++ tr2)
  \/ (exists e, runs p tr (Raised e) /\ o = Raised e).
Proof.
  revert tr; induction p as [r | e | X ev c IH]; intros tr H; cbn in H.
  - left; exists [], tr, r; cbn; auto.
  - right; destruct H as [-> ->]; exists e; cbn; auto.
  - destruct H as (x & tr' & -> & H).
    destruct (IH x _ H) as [(tr1 & tr2 & r & H1 & H2 & ->) | (e & H1 & ->)].
    + left; exists (IO ev x :: tr1), tr2, r; cbn; eauto 6.
    + right; exists e; cbn; eauto.
Qed.

(** A program placed where it runs first: in the scope of handlers,
    before continuations.  Such a place lets the calls of the program
    through. *)
Definition first_to_run (A R : Type) (F : prog A -> prog R) : Prop :=
  forall (X : Type) (ev : event X) (k : X -> prog A),
    F (Do ev k) = Do ev (fun x => F (k x)).

Definition settle (A : Type) (o : outcome A) : prog A :=
  match o with
  | Returned r => Ret r
  | Raised e => Throw e
  end.

(** A run of the whole is a run of the part that runs first, followed
    by a run of the whole with the part replaced by its outcome. *)
Lemma runs_focus (A R : Type) (F : prog A -> prog R) (p : prog A) tr o :
  first_to_run F ->
  runs (F p) tr o ->
  exists tr1 o1 tr2,
    runs p tr1 o1 /\ tr = tr1 ++ tr2 /\ runs (F (settle o1)) tr2 o.
Proof.
  intros HF; revert tr; induction p as [r | e | X ev c IH]; intros tr H.
  - exists [], (Returned r), tr; cbn; auto.
  - exists [], (Raised e), tr; cbn; auto.
  - rewrite HF in H; cbn in H; destruct H as (x & tr' & -> & H).
    destruct (IH x _ H) as (tr1 & o1 & tr2 & H1 & -> & H2).
    exists (IO ev x :: tr1), o1, tr2; cbn; eauto 6.
Qed.

(** Every run in an environment is a run. *)
Lemma exec_runs (R : Type) (w : world) (p : prog R) past :
  runs p (fst (exec w p past)) (snd (exec w p past)).
Proof.
  revert past; induction p as [r | e | X ev c IH]; intros past; cbn; auto.
  specialize (IH (w past X ev) (IO ev (w past X ev) :: past)).
  destruct (exec w (c (w past X ev)) (IO ev (w past X ev) :: past)) as [tr o].
  cbn in *; eauto.
Qed.

Lemma run_runs (R : Type) (w : world) (p : prog R) :
  runs p (fst (run w p)) (snd (run w p)).
Proof. apply exec_runs. Qed.

(** ** Stepping through a run *)

Ltac unfold_script H :=
  cbn [runs bind try_except finally ask call print settle getitem] in H.

(** The part of a program that runs first. *)
Ltac head_of P :=
  lazymatch P with
  | bind ?p _ => head_of p
  | try_except ?p _ => head_of p
  | finally ?p _ => head_of p
  | _ => P
  end.

Ltac end_of_run H :=
  let Ht := fresh "Ht" in
  let Ho := fresh "Ho" in
  destruct H as [Ht Ho];
  try subst;
  try discriminate;
  try (injection Ho as Ho; try subst).

Lemma bind_Ret (R S : Type) (r : R) (k : R -> prog S) : bind (Ret r) k = k r.
Proof. reflexivity. Qed.

Lemma bind_Throw (R S : Type) (e : exc) (k : R -> prog S) :
  bind (Throw e) k = Throw e.
Proof. reflexivity. Qed.

Lemma try_except_Ret (R : Type) (r : R) (h : exc -> prog R) :
  try_except (Ret r) h = Ret r.
Proof. reflexivity. Qed.

Lemma try_except_Throw (R : Type) (e : exc) (h : exc -> prog R) :
  try_except (Throw e) h = h e.
Proof. reflexivity. Qed.

(** One step: a call is answered, a test is decided, or the run ends. *)
Ltac step H :=
  unfold_script H;
  lazymatch type of H with
  | exists _, _ =>
      let x := fresh "x" in
      let tr := fresh "tr" in
      let E := fresh "E" in
      destruct H as (x & tr & E & H); subst
  | _ /\ _ => end_of_run H
  | runs ?P _ _ =>
      let h := head_of P in
      lazymatch h with
      | match ?c with _ => _ end => destruct c eqn:?
      | settle ?c => destruct c
      | getitem _ _ => unfold getitem in H
      | Ret _ => first [ rewrite bind_Ret in H | rewrite try_except_Ret in H ]
      | Throw _ =>
          first [ rewrite bind_Throw in H | rewrite try_except_Throw in H ]
      end
  end.

Ltac steps H := repeat step H.

(** Focus on the block [b] that runs first in [H]. *)
Ltac focus b H :=
  lazymatch type of H with
  | runs ?P ?tr ?o =>
      let Q := eval pattern b in P in
      lazymatch Q with
      | ?F _ =>
          let tr1 := fresh "tr" in
          let o1 := fresh "o" in
          let tr2 := fresh "tr" in
          let Hb := fresh "Hb" in
          let E := fresh "E" in
          apply (@runs_focus _ _ F b) in H;
          [ destruct H as (tr1 & o1 & tr2 & Hb & E & H); subst; cbv beta in H
          | intros ? ? ?; reflexivity ]
      end
  end.

(** ** The word a pattern captures *)

Ltac split_tests :=
  repeat match goal with
         | |- context [N.eqb ?a ?b] => destruct (N.eqb_spec a b)
         | |- context [N.leb ?a ?b] => destruct (N.leb_spec a b)
         | |- context [N.ltb ?a ?b] => destruct (N.ltb_spec a b)
         | H : context [N.eqb _ _] |- _ => revert H
         | H : context [N.leb _ _] |- _ => revert H
         | H : context [N.ltb _ _] |- _ => revert H
         end.

(** The characters that a capital ASCII letter of a pattern matches
    when case is ignored. *)
Definition letter_like (c : codepoint) : bool :=
  is_ascii_upper c || is_ascii_lower c || (c =? cp_I_dot)%N
  || (c =? cp_dotless_i)%N || (c =? cp_long_s)%N || (c =? cp_kelvin)%N.

Lemma sre_lower_cases c :
  (is_ascii_upper c = true /\ sre_lower c = (c + 32)%N)
  \/ (c = cp_I_dot /\ sre_lower c = 105%N)
  \/ (c = cp_kelvin /\ sre_lower c = 107%N)
  \/ (is_ascii_upper c = false /\ c <> cp_I_dot /\ c <> cp_kelvin
      /\ sre_lower c = c).
Proof.
  unfold sre_lower.
  destruct (is_ascii_upper c); [ left; auto | right ].
  destruct (N.eqb_spec c cp_I_dot); [ left; auto | right ].
  destruct (N.eqb_spec c cp_kelvin); [ left; auto | right; auto ].
Qed.

Lemma sre_fixes_cases lo lc :
  mem_cp lc (sre_fixes lo) = true -> lc = cp_dotless_i \/ lc = cp_long_s.
Proof.
  unfold sre_fixes, mem_cp.
  destruct (lo =? 105)%N; [ | destruct (lo =? 115)%N ]; cbn;
    rewrite ?orb_false_r; intros H; try discriminate;
    apply N.eqb_eq in H; auto.
Qed.

Lemma letter_like_lower c v :
  sre_lower c = v ->
  ((97 <= v <= 122)%N \/ v = cp_dotless_i \/ v = cp_long_s) ->
  letter_like c = true.
Proof.
  intros Hv Hr; unfold letter_like.
  destruct (sre_lower_cases c) as [(Hu & _) | [(-> & _) | [(-> & _) | (Hu & Hi & Hk & E)]]].
  - rewrite Hu; reflexivity.
  - reflexivity.
  - reflexivity.
  - rewrite E in Hv; subst v.
    unfold is_ascii_upper, is_ascii_lower, cp_dotless_i, cp_long_s in *.
    destruct Hr as [Hr | [-> | ->]]; [ | reflexivity | reflexivity ].
    replace ((97 <=? c)%N && (c <=? 122)%N) with true
      by (symmetry; apply andb_true_intro; split; apply N.leb_le; lia).
    rewrite orb_true_r; reflexivity.
Qed.

Lemma lit_ic_capital x c :
  is_ascii_upper x = true -> lit_ic x c = true -> letter_like c = true.
Proof.
  intros Hx H; unfold lit_ic in H.
  assert (Hlo : sre_lower x = (x + 32)%N) by (unfold sre_lower; rewrite Hx; reflexivity).
  apply andb_prop in Hx; destruct Hx as [H1 H2].
  apply N.leb_le in H1; apply N.leb_le in H2.
  apply orb_prop in H; destruct H as [H | H].
  - apply N.eqb_eq in H.
    apply letter_like_lower with (v := sre_lower c); [ reflexivity | left; lia ].
  - apply sre_fixes_cases in H.
    apply letter_like_lower with (v := sre_lower c); [ reflexivity | right; exact H ].
Qed.

Lemma range_ic_capitals c : range_ic 65%N 90%N c = true -> letter_like c = true.
Proof.
  unfold range_ic; intros H.
  apply existsb_exists in H; destruct H as (x & Hx & H).
  apply in_map_iff in Hx; destruct Hx as (i & <- & Hi).
  apply in_seq in Hi.
  apply lit_ic_capital with (x := (65 + N.of_nat i)%N); [ | exact H ].
  unfold is_ascii_upper.
  apply andb_true_intro; split; apply N.leb_le; change (N.to_nat (90 + 1 - 65)%N) with 26%nat in Hi; lia.
Qed.

Section Capture.

Variable U : unicode_db.

Definition letters5 : atom := ASet [SRange 65%N 90%N].

Definition is_letters5 (a : atom) : bool :=
  match a with
  | ASet [SRange lo hi] => (lo =? 65)%N && (hi =? 90)%N
  | _ => false
  end.

Definition is_group (n : node) : bool :=
  match n with NGroup _ _ => true | _ => false end.

(** Each group of the pattern is [([A-Z]{5})]. *)
Definition well_grouped (r : regex) : bool :=
  forallb (fun n => match n with
                    | NGroup k a => (k =? 5)%nat && is_letters5 a
                    | _ => true
                    end) r.

(** Group 1 holds five characters of the text [s0], each matched by
    [[A-Z]] ignoring case. *)
Definition five_letters_caught (s0 : pystr) (g : option pystr) : Prop :=
  exists w, g = Some w /\ length w = 5%nat /\ forallb letter_like w = true
            /\ incl w s0.

Lemma is_letters5_eq a : is_letters5 a = true -> a = letters5.
Proof.
  destruct a as [ | | | | items]; try discriminate.
  destruct items as [ | [x | lo hi | ] [ | ? ?]]; try discriminate.
  cbn; intros H.
  apply andb_prop in H; destruct H as [Hlo Hhi].
  apply N.eqb_eq in Hlo; apply N.eqb_eq in Hhi; subst; reflexivity.
Qed.

Lemma letters5_match c : atom_match U letters5 c = true -> letter_like c = true.
Proof.
  cbn; rewrite orb_false_r; apply range_ic_capitals.
Qed.

Lemma rep_atom_spec a k : forall s cap rest,
  rep_atom U a k s = Some (cap, rest) ->
  length cap = k /\ forallb (atom_match U a) cap = true /\ s = cap ++ rest.
Proof.
  induction k as [ | k IH]; intros s cap rest H; cbn in H.
  - injection H as <- <-; auto.
  - destruct s as [ | c s]; [ discriminate | ].
    destruct (atom_match U a c) eqn:Hc; [ | discriminate ].
    destruct (rep_atom U a k s) as [[cap' rest'] | ] eqn:Hr; [ | discriminate ].
    injection H as <- <-.
    destruct (IH _ _ _ Hr) as (Hl & Hf & ->); cbn; rewrite Hc, Hl, Hf; auto.
Qed.

Lemma incl_tail (A : Type) (c : A) s s0 : incl (c :: s) s0 -> incl s s0.
Proof. intros H x Hx; apply H; right; exact Hx. Qed.

Lemma star_greedy_inv (R : Type) (Q : R -> Prop) a s0
    (k : option codepoint -> pystr -> option R) :
  (forall p t m, incl t s0 -> k p t = Some m -> Q m) ->
  forall s prev m, incl s s0 -> star_greedy U a k prev s = Some m -> Q m.
Proof.
  intros Hk; induction s as [ | c s IH]; intros prev m Hs H; cbn in H.
  - eauto.
  - destruct (atom_match U a c); [ | eauto ].
    destruct (star_greedy U a k (Some c) s) eqn:Hg; [ | eauto ].
    injection H as <-; eauto using incl_tail.
Qed.

(** A match leaves in group 1 what the last group on its way caught,
    and what was there before when there is none. *)
Lemma match_here_group s0 r :
  well_grouped r = true ->
  forall prev s g m,
    incl s s0 ->
    match_here U r prev s g = Some m ->
    if existsb is_group r then five_letters_caught s0 m else m = g.
Proof.
  induction r as [ | n r IH]; intros Hw prev s g m Hs H.
  - cbn in *; congruence.
  - cbn [well_grouped forallb] in Hw; apply andb_prop in Hw; destruct Hw as [Hn Hw].
    specialize (IH Hw).
    destruct n as [a | a | a | k a | ]; cbn [existsb is_group orb]; cbn [match_here] in H.
    + destruct s as [ | c s]; [ discriminate | ].
      destruct (atom_match U a c); [ | discriminate ].
      exact (IH _ _ _ _ (incl_tail Hs) H).
    + destruct s as [ | c s]; [ exact (IH _ _ _ _ Hs H) | ].
      destruct (atom_match U a c); [ | exact (IH _ _ _ _ Hs H) ].
      destruct (match_here U r (Some c) s g) eqn:Hm; [ | exact (IH _ _ _ _ Hs H) ].
      injection H as <-; exact (IH _ _ _ _ (incl_tail Hs) Hm).
    + destruct s as [ | c s]; [ discriminate | ].
      destruct (atom_match U a c); [ | discriminate ].
      revert H;
        apply (@star_greedy_inv _
                 (fun m' => if existsb is_group r
                            then five_letters_caught s0 m' else m' = g)
                 a s0 _ (fun p t m' Ht Hm => IH p t g m' Ht Hm));
        exact (incl_tail Hs).
    + destruct (rep_atom U a k s) as [[cap rest] | ] eqn:Hr; [ | discriminate ].
      apply andb_prop in Hn; destruct Hn as [Hk Ha].
      apply Nat.eqb_eq in Hk; apply is_letters5_eq in Ha; subst k a.
      destruct (rep_atom_spec _ _ _ Hr) as (Hl & Hf & ->).
      assert (Hcap : five_letters_caught s0 (Some cap)).
      { exists cap; repeat split; auto.
        - apply forallb_forall; intros c Hc.
          apply letters5_match; revert c Hc; apply forallb_forall; exact Hf.
        - intros c Hc; apply Hs, in_or_app; left; exact Hc. }
      assert (Hrest : incl rest s0)
        by (intros c Hc; apply Hs, in_or_app; right; exact Hc).
      specialize (IH _ _ _ _ Hrest H).
      destruct (existsb is_group r); [ exact IH | subst m; exact Hcap ].
    + destruct (xorb _ _); [ exact (IH _ _ _ _ Hs H) | discriminate ].
Qed.

Lemma search_from_group s0 r :
  well_grouped r = true -> existsb is_group r = true ->
  forall s prev m,
    incl s s0 -> search_from U r prev s = Some m -> five_letters_caught s0 m.
Proof.
  intros Hw Hg; induction s as [ | c s IH]; intros prev m Hs H; cbn in H.
  - destruct (match_here U r prev [] None) eqn:Hm; [ | discriminate ].
    injection H as <-.
    apply (@match_here_group s0 r Hw _ _ _ _ Hs) in Hm; rewrite Hg in Hm; exact Hm.
  - destruct (match_here U r prev (c :: s) None) eqn:Hm.
    + injection H as <-.
      apply (@match_here_group s0 r Hw _ _ _ _ Hs) in Hm; rewrite Hg in Hm; exact Hm.
    + eauto using incl_tail.
Qed.

Lemma patterns_grouped :
  forallb (fun p => well_grouped p && existsb is_group p) patterns = true.
Proof. vm_compute; reflexivity. Qed.

(** Whatever pattern of the script finds something, group 1 holds five
    characters of the text, each matched by [[A-Z]] ignoring case. *)
Lemma re_search_patterns p text m :
  In p patterns -> re_search U p text = Some m -> five_letters_caught text m.
Proof.
  intros Hp H.
  pose proof patterns_grouped as Hall.
  rewrite forallb_forall in Hall; apply Hall in Hp.
  apply andb_prop in Hp; destruct Hp as [Hw Hg].
  exact (@search_from_group text p Hw Hg _ _ _ (incl_refl text) H).
Qed.

(** [upper()] turns each such character into one capital letter. *)
Lemma upper_char_letter c :
  letter_like c = true ->
  exists u, upper_char U c = [u] /\ is_capital_letter u = true
            /\ (is_ascii c = true -> is_ascii_upper u = true).
Proof.
  unfold letter_like, upper_char, is_capital_letter, is_ascii, is_ascii_upper,
    is_ascii_lower, cp_I_dot, cp_dotless_i, cp_long_s, cp_kelvin.
  repeat (split_tests; cbn in *; intros); try discriminate;
    try (exfalso; lia);
    eexists; (split; [ reflexivity | ]); split;
    repeat (split_tests; cbn in *; intros);
    try reflexivity; try discriminate; exfalso; lia.
Qed.

Lemma str_upper_letters w :
  forallb letter_like w = true ->
  length (str_upper U w) = length w
  /\ forallb is_capital_letter (str_upper U w) = true
  /\ (forallb is_ascii w = true -> forallb is_ascii_upper (str_upper U w) = true).
Proof.
  unfold str_upper; induction w as [ | c w IH]; cbn [forallb flat_map]; auto.
  intros H; apply andb_prop in H; destruct H as [Hc Hw].
  destruct (upper_char_letter _ Hc) as (u & -> & Hu & Ha).
  destruct (IH Hw) as (Hl & Hcap & Hasc).
  cbn [app length forallb]; rewrite Hl, Hu, Hcap; repeat split; auto.
  intros H; apply andb_prop in H; destruct H as [H1 H2].
  rewrite (Ha H1), (Hasc H2); reflexivity.
Qed.

Lemma forallb_incl (A : Type) (P : A -> bool) (w s : list A) :
  incl w s -> forallb P s = true -> forallb P w = true.
Proof.
  intros Hi Hs; apply forallb_forall; intros x Hx.
  rewrite forallb_forall in Hs; auto.
Qed.

(** What the search loop hands on: nothing when no pattern is found,
    else the capital form of five letters of the text. *)
Definition word_found (text word : pystr) : Prop :=
  exists g, word = str_upper U g
            /\ length g = 5%nat /\ forallb letter_like g = true /\ incl g text.

Lemma find_word_some pats text : forall tr o,
  (forall p, In p pats -> In p patterns) ->
  runs (find_word U pats (Some text)) tr o ->
  (forallb (fun p => is_none (re_search U p text)) pats = true
   /\ tr = [] /\ o = Returned None)
  \/ (exists word,
        forallb (fun p => is_none (re_search U p text)) pats = false
        /\ word_found text word
        /\ tr = [IO (Print (lit "[OK] Found word: " ++ word)) tt]
        /\ o = Returned (Some word)).
Proof.
  induction pats as [ | p pats IH]; intros tr o Hin H.
  - cbn in H; destruct H as [-> ->]; left; auto.
  - cbn [find_word] in H; cbn [forallb].
    destruct (re_search U p text) as [m | ] eqn:Hp.
    + apply re_search_patterns in Hp; [ | apply Hin; left; reflexivity ].
      destruct Hp as (g & -> & Hl & Hg & Hi).
      cbn in H; destruct H as ([] & tr' & -> & -> & ->).
      right; exists (str_upper U g); repeat split; auto.
      exists g; auto.
    + cbn [is_none andb].
      apply IH; [ intros q Hq; apply Hin; right; exact Hq | exact H ].
Qed.

Lemma find_word_runs pt tr o :
  runs (find_word U patterns pt) tr o ->
  match pt with
  | None => tr = [] /\ o = Raised type_error
  | Some text =>
      (no_pattern_matches U text = true /\ tr = [] /\ o = Returned None)
      \/ (exists word,
            no_pattern_matches U text = false
            /\ word_found text word
            /\ tr = [IO (Print (lit "[OK] Found word: " ++ word)) tt]
            /\ o = Returned (Some word))
  end.
Proof.
  destruct pt as [text | ].
  - apply find_word_some; auto.
  - intros H; exact H.
Qed.

Lemma word_found_shape text word :
  word_found text word ->
  length word = 5%nat
  /\ forallb is_capital_letter word = true
  /\ (forallb is_ascii text = true -> forallb is_ascii_upper word = true)
  /\ exists c w, word = c :: w.
Proof.
  intros (g & -> & Hl & Hg & Hi).
  destruct (str_upper_letters _ Hg) as (Hlen & Hcap & Hasc).
  rewrite Hl in Hlen; repeat split; auto.
  - intros Ht; apply Hasc; exact (forallb_incl _ Hi Ht).
  - destruct (str_upper U g) as [ | c w]; [ discriminate | eauto ].
Qed.

End Capture.

(** ** The calendar *)

Ltac split_ztests :=
  repeat match goal with
         | |- context [Z.eqb ?a ?b] => destruct (Z.eqb_spec a b)
         | |- context [Z.leb ?a ?b] => destruct (Z.leb_spec a b)
         | |- context [Z.ltb ?a ?b] => destruct (Z.ltb_spec a b)
         | H : context [Z.eqb _ _] |- _ => revert H
         | H : context [Z.leb _ _] |- _ => revert H
         | H : context [Z.ltb _ _] |- _ => revert H
         end.

Lemma month_cases m :
  1 <= m <= 12 ->
  m = 1 \/ m = 2 \/ m = 3 \/ m = 4 \/ m = 5 \/ m = 6 \/ m = 7 \/ m = 8
  \/ m = 9 \/ m = 10 \/ m = 11 \/ m = 12.
Proof. lia. Qed.

Lemma valid_ymd_bounds y m d :
  valid_ymd y m d = true ->
  1 <= y <= MAXYEAR /\ 1 <= m <= 12 /\ 1 <= d <= days_in_month y m.
Proof.
  unfold valid_ymd; intros H.
  repeat (apply andb_prop in H; destruct H as [H ?]).
  repeat match goal with H : (_ <=? _) = true |- _ => apply Z.leb_le in H end.
  lia.
Qed.

Lemma valid_ymd_intro y m d :
  1 <= y <= MAXYEAR -> 1 <= m <= 12 -> 1 <= d <= days_in_month y m ->
  valid_ymd y m d = true.
Proof.
  intros; unfold valid_ymd.
  repeat (apply andb_true_intro; split); apply Z.leb_le; lia.
Qed.

Lemma days_in_month_range y m : 1 <= m <= 12 -> 28 <= days_in_month y m <= 31.
Proof.
  intros Hm; unfold days_in_month.
  destruct (month_cases Hm) as [-> | [-> | [-> | [-> | [-> | [-> | [-> | [-> | [-> | [-> | [-> | ->]]]]]]]]]]];
    destruct (is_leap y); vm_compute; split; discriminate.
Qed.

(** The day after a date of the calendar is a date of the calendar. *)
Lemma add_one_day_valid t t' :
  valid_datetime t = true -> add_one_day t = Some t' -> valid_datetime t' = true.
Proof.
  unfold valid_datetime, add_one_day; intros H.
  apply andb_prop in H; destruct H as [H Hhi].
  apply andb_prop in H; destruct H as [H Hlo].
  apply valid_ymd_bounds in H; destruct H as (Hy & Hm & Hd).
  destruct (Z.ltb_spec (dt_day t) (days_in_month (dt_year t) (dt_month t))).
  - intros [= <-]; cbn; rewrite Hlo, Hhi, valid_ymd_intro; auto; lia.
  - destruct (Z.ltb_spec (dt_month t) 12).
    + intros [= <-]; cbn; rewrite Hlo, Hhi, valid_ymd_intro; auto; try lia.
      pose proof (days_in_month_range (dt_year t) (m := dt_month t + 1)); lia.
    + destruct (Z.ltb_spec (dt_year t) MAXYEAR); [ | discriminate ].
      intros [= <-]; cbn; rewrite Hlo, Hhi, valid_ymd_intro; auto; try lia.
      pose proof (days_in_month_range (dt_year t + 1) (m := 1)); lia.
Qed.

(** The time of day does not move the count of days. *)
Lemma sub_days_floor a b :
  0 <= dt_micros a < DAY_MICROS -> dt_micros b = 0 ->
  sub_days a b = toordinal a - toordinal b.
Proof.
  unfold sub_days, DAY_MICROS; intros Ha Hb; rewrite Hb.
  symmetry; apply Z.div_unique with (r := dt_micros a - 0); lia.
Qed.

Lemma valid_datetime_micros t :
  valid_datetime t = true -> 0 <= dt_micros t < DAY_MICROS.
Proof.
  unfold valid_datetime; intros H.
  apply andb_prop in H; destruct H as [H Hhi].
  apply andb_prop in H; destruct H as [_ Hlo].
  apply Z.leb_le in Hlo; apply Z.ltb_lt in Hhi; lia.
Qed.

(** Tomorrow's date and the game number are those of the date read,
    whatever the time. *)
Lemma add_one_day_date t1 t2 :
  date_of t1 = date_of t2 ->
  match add_one_day t1, add_one_day t2 with
  | Some u1, Some u2 => date_of u1 = date_of u2 /\ dt_micros u1 = dt_micros t1
                        /\ dt_micros u2 = dt_micros t2
  | None, None => True
  | _, _ => False
  end.
Proof.
  unfold date_of, add_one_day; intros [= -> -> ->].
  destruct (_ <? _); [ cbn; auto | ].
  destruct (_ <? _); [ cbn; auto | ].
  destruct (_ <? _); cbn; auto.
Qed.

Lemma game_number_of_date u1 u2 :
  valid_datetime u1 = true -> valid_datetime u2 = true ->
  date_of u1 = date_of u2 -> game_number_of u1 = game_number_of u2.
Proof.
  intros H1 H2 Hd; unfold game_number_of.
  rewrite !sub_days_floor by (auto using valid_datetime_micros).
  unfold toordinal; unfold date_of in Hd; injection Hd as -> -> ->; reflexivity.
Qed.

Lemma strftime_date u1 u2 :
  date_of u1 = date_of u2 -> strftime_mdY u1 = strftime_mdY u2.
Proof.
  unfold date_of, strftime_mdY; intros [= -> -> ->]; reflexivity.
Qed.

Lemma review_url_date t1 t2 g :
  date_of t1 = date_of t2 -> review_url t1 g = review_url t2 g.
Proof.
  unfold date_of, review_url; intros [= -> -> ->]; reflexivity.
Qed.

(** Two digits and four digits read back as the number written. *)
Lemma number_of_dec2 n :
  0 <= n < 100 -> number_of (dec_digits 2 n) 0 = Some n.
Proof.
  intros Hn; cbn [dec_digits app number_of].
  assert (H1 : 0 <= n mod 10 < 10) by (apply Z.mod_pos_bound; lia).
  assert (H2 : 0 <= n / 10 mod 10 < 10) by (apply Z.mod_pos_bound; lia).
  assert (H3 : n / 10 < 10) by (apply Z.div_lt_upper_bound; lia).
  assert (H4 : 0 <= n / 10) by (apply Z.div_pos; lia).
  unfold digit_val, is_ascii_digit.
  replace ((48 <=? Z.to_N (48 + n / 10 mod 10))%N && (Z.to_N (48 + n / 10 mod 10) <=? 57)%N)
    with true by (symmetry; apply andb_true_intro; split; apply N.leb_le; lia).
  replace ((48 <=? Z.to_N (48 + n mod 10))%N && (Z.to_N (48 + n mod 10) <=? 57)%N)
    with true by (symmetry; apply andb_true_intro; split; apply N.leb_le; lia).
  f_equal.
  rewrite (Z.mod_small (n / 10) 10) by lia.
  pose proof (Z.div_mod n 10); lia.
Qed.

Lemma number_of_dec4 n :
  0 <= n < 10000 -> number_of (dec_digits 4 n) 0 = Some n.
Proof.
  intros Hn; cbn [dec_digits app number_of].
  assert (Ha : 0 <= n / 10 < 1000)
    by (split; [ apply Z.div_pos | apply Z.div_lt_upper_bound ]; lia).
  assert (Hb : 0 <= n / 10 / 10 < 100)
    by (split; [ apply Z.div_pos | apply Z.div_lt_upper_bound ]; lia).
  assert (Hc : 0 <= n / 10 / 10 / 10 < 10)
    by (split; [ apply Z.div_pos | apply Z.div_lt_upper_bound ]; lia).
  assert (H1 : 0 <= n mod 10 < 10) by (apply Z.mod_pos_bound; lia).
  assert (H2 : 0 <= n / 10 mod 10 < 10) by (apply Z.mod_pos_bound; lia).
  assert (H3 : 0 <= n / 10 / 10 mod 10 < 10) by (apply Z.mod_pos_bound; lia).
  assert (H4 : 0 <= n / 10 / 10 / 10 mod 10 < 10) by (apply Z.mod_pos_bound; lia).
  unfold digit_val, is_ascii_digit.
  repeat match goal with
         | |- context [(48 <=? Z.to_N ?x)%N && (Z.to_N ?x <=? 57)%N] =>
             replace ((48 <=? Z.to_N x)%N && (Z.to_N x <=? 57)%N)
               with true by (symmetry; apply andb_true_intro; split; apply N.leb_le; lia)
         end.
  f_equal.
  rewrite (Z.mod_small (n / 10 / 10 / 10) 10) by lia.
  pose proof (Z.div_mod n 10);
    pose proof (Z.div_mod (n / 10) 10);
    pose proof (Z.div_mod (n / 10 / 10) 10); lia.
Qed.

(** The string written for a date of the calendar reads back as that
    date. *)
Lemma strftime_roundtrip t :
  valid_datetime t = true ->
  parse_mdY (strftime_mdY t) = Some (dt_year t, dt_month t, dt_day t).
Proof.
  intros H; unfold valid_datetime in H.
  apply andb_prop in H; destruct H as [H _].
  apply andb_prop in H; destruct H as [H _].
  apply valid_ymd_bounds in H; destruct H as (Hy & Hm & Hd).
  pose proof (days_in_month_range (dt_year t) Hm) as Hr.
  unfold MAXYEAR in Hy.
  pose proof (@number_of_dec2 (dt_month t)) as Nm.
  pose proof (@number_of_dec2 (dt_day t)) as Nd.
  pose proof (@number_of_dec4 (dt_year t)) as Ny.
  unfold strftime_mdY, parse_mdY.
  cbn [dec_digits app] in *.
  change (lit "/") with [47%N]; cbn [app].
  cbv beta iota.
  change ((47 =? 47)%N && (47 =? 47)%N) with true; cbv iota.
  specialize (Nm ltac:(lia)); specialize (Nd ltac:(lia)); specialize (Ny ltac:(lia)).
  unfold pystr, codepoint in *.
  rewrite Nm, Nd, Ny; reflexivity.
Qed.

Lemma strftime_is_calendar_date t :
  valid_datetime t = true -> is_calendar_date (strftime_mdY t) = true.
Proof.
  intros H; unfold is_calendar_date; rewrite (strftime_roundtrip _ H).
  unfold valid_datetime in H.
  apply andb_prop in H; destruct H as [H _].
  apply andb_prop in H; destruct H as [H _]; exact H.
Qed.

(** ** The reveal stage *)

Lemma flat_map_quiet (A : Type) (f : io -> list A) (P : io -> bool) tr :
  (forall i, P i = true -> f i = []) ->
  forallb P tr = true -> flat_map f tr = [].
Proof.
  intros Hf; induction tr as [ | i tr IH]; cbn; auto.
  intros H; apply andb_prop in H; destruct H as [Hi Htr].
  rewrite (Hf _ Hi), (IH Htr); reflexivity.
Qed.

Ltac quiet_call :=
  let H := fresh in
  intros [X ev x] H; destruct ev; cbn in *;
  try discriminate; try reflexivity;
  apply Z.eqb_eq in H; subst; reflexivity.

Lemma reveal_call_facts tr :
  forallb reveal_call tr = true ->
  clock_reads tr = [] /\ connect_answers tr = [] /\ pages_opened tr = []
  /\ new_page_calls tr = [] /\ goto_urls tr = [] /\ goto_answers tr = []
  /\ settle_waits tr = [] /\ text_calls tr = [] /\ texts_read tr = []
  /\ close_calls tr = [] /\ subprocess_calls tr = []
  /\ subprocess_answers tr = [].
Proof.
  intros H; repeat split;
    (eapply flat_map_quiet; [ | exact H ]); quiet_call.
Qed.

Lemma reveal_loop_runs page sels : forall c tr o,
  runs (reveal_loop page sels c) tr o ->
  exists c', o = Returned c'
             /\ forallb reveal_call tr = true
             /\ (exists n, selectors_tried tr = firstn n sels)
             /\ (clicks_ok tr = [] -> c' = c).
Proof.
  induction sels as [ | sel rest IH]; intros c tr o H.
  - cbn in H; destruct H as [-> ->].
    exists c; repeat split; auto; exists 0%nat; reflexivity.
  - cbn [reveal_loop] in H; steps H;
      try (apply IH in H; destruct H as (c' & -> & Hall & (n & Hn) & Hc));
      eexists; (split; [ reflexivity | ]);
      (split; [ cbn; auto | ]);
      (split; [ | cbn; try discriminate; auto ]).
    + exists 1%nat; reflexivity.
    + exists (S n); unfold selectors_tried in *; cbn; rewrite Hn; reflexivity.
    + exists (S n); unfold selectors_tried in *; cbn; rewrite Hn; reflexivity.
    + exists (S n); unfold selectors_tried in *; cbn; rewrite Hn; reflexivity.
    + exists (S n); unfold selectors_tried in *; cbn; rewrite Hn; reflexivity.
Qed.

(** The reveal stage never raises, tries the selectors in order, and
    warns when no click went through. *)
Lemma reveal_runs page tr o :
  runs (reveal page) tr o ->
  o = Returned tt
  /\ forallb reveal_call tr = true
  /\ (exists n, selectors_tried tr = firstn n reveal_selectors)
  /\ (clicks_ok tr = [] -> In msg_no_button (console tr)).
Proof.
  intros H; unfold reveal in H.
  focus (reveal_loop page reveal_selectors false) H.
  apply reveal_loop_runs in Hb.
  destruct Hb as (c' & -> & Hall & (n & Hn) & Hc).
  destruct c'; steps H.
  - repeat split; rewrite ?app_nil_r; auto.
    + exists n; exact Hn.
    + intros Hno; specialize (Hc Hno); discriminate.
  - destruct x; repeat split.
    + rewrite forallb_app, Hall; reflexivity.
    + exists n; unfold selectors_tried in *; rewrite flat_map_app, Hn; cbn;
        apply app_nil_r.
    + intros _; unfold console; rewrite flat_map_app; apply in_or_app; right;
        cbn; auto.
Qed.


(** ** Walking through the script *)

Ltac focus_then b H k :=
  lazymatch type of H with
  | runs ?P ?tr ?o =>
      let Q := eval pattern b in P in
      lazymatch Q with
      | ?F _ =>
          let tr1 := fresh "tr" in
          let o1 := fresh "o" in
          let tr2 := fresh "tr" in
          let Hb := fresh "Hb" in
          let E := fresh "E" in
          apply (@runs_focus _ _ F b) in H;
          [ destruct H as (tr1 & o1 & tr2 & Hb & E & H); cbv beta in H; k Hb;
            try subst
          | intros ? ? ?; reflexivity ]
      end
  end.

Ltac after_reveal Hb :=
  let Hq := fresh "Hquiet" in
  let Hs := fresh "Hsel" in
  let Hw := fresh "Hwarn" in
  apply reveal_runs in Hb; destruct Hb as (-> & Hq & Hs & Hw);
  pose proof (reveal_call_facts _ Hq) as
    (? & ? & ? & ? & ? & ? & ? & ? & ? & ? & ? & ?).

Ltac after_find_word Hb :=
  let Hm := fresh "Hmatch" in
  let Hw := fresh "Hword" in
  let word := fresh "word" in
  apply find_word_runs in Hb;
  lazymatch type of Hb with
  | match ?pt with _ => _ end =>
      destruct pt;
      [ destruct Hb as [(Hm & -> & ->) | (word & Hm & Hw & -> & ->)];
        [ | let c := fresh "c" in
            let w := fresh "w" in
            let E := fresh "E" in
            destruct (word_found_shape Hw) as (? & ? & ? & c & w & E);
            rewrite E in * ]
      | destruct Hb as (-> & ->) ]
  end.

Ltac block_step H :=
  unfold_script H;
  lazymatch type of H with
  | runs ?P _ _ =>
      let h := head_of P in
      lazymatch h with
      | reveal _ => focus_then h H after_reveal
      | find_word _ patterns _ => focus_then h H after_find_word
      | fetch_nyt_wordle _ => focus_then h H ltac:(fun Hb => idtac)
      end
  end.

Ltac walk H := repeat first [ step H | block_step H ].

Ltac open_fetch H :=
  unfold fetch_nyt_wordle, session, connect, read_page, on_error,
    close_browser, save_debug_page in H.

(** The string literals of the script are folded away while a run is
    walked through. *)
Ltac fold_strings H :=
  repeat match type of H with
         | context [lit ?s] =>
             let v := fresh "s" in
             set (v := lit s) in H
         end.

(** Walking is done with the statement folded away too; it is put
    back at the end of each run. *)
Ltac walk_with open H :=
  lazymatch type of H with
  | runs _ ?tr ?o =>
      let P := fresh "P" in
      pattern tr, o;
      lazymatch goal with
      | |- ?G tr o => set (P := G)
      end;
      open H; fold_strings H; walk H; subst P; cbv beta
  end.

Ltac walk_all H := walk_with open_fetch H.

Ltac open_main H := unfold main, add_word_to_database in H.
Ltac walk_main H := walk_with open_main H.

(** A line is on the console. *)
Ltac find_in :=
  repeat match goal with
         | |- In _ (_ :: _) => first [ left; reflexivity | right ]
         | |- In _ (_ ++ _) => apply in_or_app; first [ left; assumption | right ]
         end.

(** Reading a trace that is written out. *)
Ltac observe :=
  unfold clock_valid in *;
  unfold console, clock_reads, connect_answers, pages_opened, new_page_calls,
    goto_urls, goto_answers, settle_waits, selectors_tried, clicks_ok,
    text_calls, texts_read, close_calls, subprocess_calls, subprocess_answers
    in *;
  repeat (progress
    (cbn [flat_map app printed clock_read connect_answer page_opened
          new_page_call goto_url goto_answer settle_wait selector_tried
          clicked_ok text_call text_read close_call subprocess_args
          subprocess_answer succeeded] in *;
     repeat rewrite flat_map_app in *));
  repeat match goal with
         | E : flat_map ?f ?t = [] |- context [flat_map ?f ?t] => rewrite E
         | E : flat_map ?f ?t = [], H : context [flat_map ?f ?t] |- _ =>
             rewrite E in H
         end;
  cbn [app] in *.

(** ** The record that [fetch_nyt_wordle] returns *)

(** A run that returns a record read the clock twice, opened one page,
    went to the address computed, found a word in the text of the page
    and closed the page and the browser. *)
Lemma fetch_record (U : unicode_db) tr d :
  runs (fetch_nyt_wordle U) tr (Returned (Some d)) ->
  exists now today tomorrow text word b pg,
    clock_reads tr = [now; today]
    /\ add_one_day now = Some tomorrow
    /\ texts_read tr = [Some text]
    /\ no_pattern_matches U text = false
    /\ word_found U text word
    /\ d = [ (lit "word", VStr word);
             (lit "game_number", VInt (game_number_of tomorrow));
             (lit "date", VStr (strftime_mdY tomorrow)) ]
    /\ connect_answers tr = [Ok b]
    /\ pages_opened tr = [pg]
    /\ close_calls tr = [ClosePage pg true; CloseBrowser b true]
    /\ goto_urls tr = [review_url today (game_number_of tomorrow)].
Proof.
  intros H; walk_all H; observe;
    do 7 eexists; repeat (split; [ reflexivity || eassumption | ]);
    reflexivity.
Qed.

(** What a run of [fetch_nyt_wordle] calls, and how often. *)
Lemma fetch_calls (U : unicode_db) tr o :
  runs (fetch_nyt_wordle U) tr o ->
  (length (connect_answers tr) <= 1)%nat
  /\ (length (new_page_calls tr) <= 1)%nat
  /\ (length (goto_urls tr) <= 1)%nat
  /\ (length (text_calls tr) <= 1)%nat
  /\ (exists n, selectors_tried tr = firstn n reveal_selectors)
  /\ subprocess_calls tr = []
  /\ (forall e, In (Err e) (connect_answers tr) ->
      o = Returned None
      /\ In msg_no_connection (console tr)
      /\ incl msg_guidance (console tr)
      /\ new_page_calls tr = [] /\ goto_urls tr = []
      /\ selectors_tried tr = [] /\ text_calls tr = []).
Proof.
  intros H. walk_all H. all: observe.
  all: repeat match goal with
              | |- _ /\ _ => split
              | |- (_ <= _)%nat => cbn; lia
              | |- exists n, [] = firstn n _ => exists 0%nat; reflexivity
              | |- exists n, _ = firstn n _ => rewrite app_nil_r; assumption
              | |- [] = [] => reflexivity
              end.
  all: intros e' He; cbn [In] in He; try contradiction;
    destruct He as [He | []]; try discriminate.
  all: repeat split; try reflexivity.
  - find_in.
  - intros m Hm; cbn [msg_guidance In] in Hm.
    repeat (destruct Hm as [<- | Hm]; [ find_in | ]); contradiction.
Qed.

(** A run whose page text no pattern recognises. *)
Lemma fetch_no_match (U : unicode_db) tr o text :
  runs (fetch_nyt_wordle U) tr o ->
  In (Some text) (texts_read tr) ->
  no_pattern_matches U text = true ->
  o = Returned None
  /\ In msg_no_answer (console tr)
  /\ close_calls tr = []
  /\ (exists pg, pages_opened tr = [pg])
  /\ subprocess_calls tr = [].
Proof.
  intros H; walk_all H; observe; intros Hin Hno;
    cbn [In] in Hin; try contradiction;
    destruct Hin as [Hin | []]; try discriminate;
    injection Hin as ->; try congruence.
  all: split; [ reflexivity | ].
  all: split; [ find_in | ].
  all: split; [ reflexivity | ].
  all: split; [ eexists; reflexivity | reflexivity ].
Qed.

(** The clock, and what is computed from it. *)
Lemma fetch_clock (U : unicode_db) tr o :
  runs (fetch_nyt_wordle U) tr o ->
  (exists now,
      clock_reads tr = [now] /\ add_one_day now = None
      /\ o = Raised overflow_error /\ console tr = [] /\ goto_urls tr = [])
  \/ (exists now today tomorrow,
        clock_reads tr = [now; today]
        /\ add_one_day now = Some tomorrow
        /\ In (lit "Game number: #" ++ str_of_int (game_number_of tomorrow))
              (console tr)
        /\ In (lit "Review URL: "
               ++ review_url today (game_number_of tomorrow)) (console tr)
        /\ (forall u, In u (goto_urls tr) ->
            u = review_url today (game_number_of tomorrow))
        /\ (forall d, o = Returned (Some d) ->
            dict_get d (lit "game_number")
            = Some (VInt (game_number_of tomorrow)))).
Proof.
  intros H; walk_all H; observe.
  all: first
    [ left; eexists; repeat (split; [ reflexivity || eassumption | ]); reflexivity
    | right; do 3 eexists;
      split; [ reflexivity | ];
      split; [ eassumption | ];
      split; [ find_in | ];
      split; [ find_in | ];
      split;
      [ intros u Hu; cbn [In] in Hu; try contradiction;
        destruct Hu as [<- | []]; reflexivity
      | intros d' Hd; try discriminate; injection Hd as <-; reflexivity ] ].
Qed.

(** A run that reached the page. *)
Lemma fetch_after_navigation (U : unicode_db) tr o :
  runs (fetch_nyt_wordle U) tr o ->
  goto_answers tr = [true] -> settle_waits tr = [true] ->
  text_calls tr = [lit "body"]
  /\ (clicks_ok tr = [] -> In msg_no_button (console tr))
  /\ (forall text,
      In (Some text) (texts_read tr) ->
      no_pattern_matches U text = false ->
      forallb closing_ok (close_calls tr) = true ->
      exists d, o = Returned (Some d)).
Proof.
  intros H; walk_all H; observe; intros Hg Hs; try discriminate.
  all: rewrite ?app_nil_r in *.
  all: split; [ reflexivity | ].
  all: split; [ intros Hno; apply Hwarn in Hno; find_in | ].
  all: intros text Hin Hyes Hok; cbn [In] in Hin; try contradiction;
    destruct Hin as [Hin | []]; try discriminate;
    injection Hin as ->; try congruence;
    cbn in Hok; try discriminate; eexists; reflexivity.
Qed.

(** ** Runs of [main], lists and notices *)

Ltac fetch_part Hin :=
  lazymatch goal with
  | Hb : runs (fetch_nyt_wordle _) ?t _ |- _ =>
      lazymatch type of Hin with
      | In ?a (?f _) =>
          let Hf := fresh "Hf" in
          assert (Hf : In a (f t))
            by (revert Hin; clear; observe; rewrite ?app_nil_r; cbn [In];
                intros Hin; tauto)
      end
  end.

Lemma reveal_selectors_distinct : NoDup reveal_selectors.
Proof.
  let l := eval vm_compute in reveal_selectors in change (NoDup l).
  repeat (constructor; [ cbn [In]; intuition discriminate | ]); constructor.
Qed.

Lemma ends_with_refl (A : Type) (l : list A) : ends_with l l.
Proof. exists []; reflexivity. Qed.

Lemma ends_with_cons (A : Type) (x : A) l s :
  ends_with l s -> ends_with (x :: l) s.
Proof. intros (f & ->); exists (x :: f); reflexivity. Qed.

Lemma ends_with_same_length (A : Type) (l a b : list A) :
  ends_with l a -> ends_with l b -> length a = length b -> a = b.
Proof.
  intros (f & ->) (g & E) Hl.
  assert (Hfg : length f = length g).
  { apply (f_equal (@length A)) in E; rewrite !length_app in E; lia. }
  revert g E Hfg; induction f as [ | x f IH]; intros [ | y g] E Hfg;
    try discriminate; cbn in *.
  - exact E.
  - injection E as _ E; injection Hfg as Hfg; eauto.
Qed.

Lemma notices_differ : notice_duplicate <> notice_failure.
Proof. vm_compute; discriminate. Qed.

Ltac at_the_end :=
  repeat first [ apply ends_with_refl | apply ends_with_cons ].

Ltac open_add_word H := unfold add_word_to_database in H.

(** ** The claims *)

(** C1. Whenever [fetch_nyt_wordle] returns a record, it has exactly the
    three entries [word], [game_number] and [date], in this order: the
    word is a string of five capital letters, the game number an
    integer, and the date a string that denotes a date of the
    calendar (the clock being one that hands out real dates). *)
Theorem fetch_returns_word_game_number_date (U : unicode_db) tr d :
  runs (fetch_nyt_wordle U) tr (Returned (Some d)) ->
  clock_valid tr = true ->
  exists word game_number date,
    d = [ (lit "word", VStr word);
          (lit "game_number", VInt game_number);
          (lit "date", VStr date) ]
    /\ length word = 5%nat
    /\ forallb is_capital_letter word = true
    /\ is_calendar_date date = true.
Proof.
  intros H Hc.
  destruct (fetch_record H)
    as (now & today & tomorrow & text & word & b & pg
        & Hclock & Hnext & _ & _ & Hword & -> & _).
  unfold clock_valid in Hc; rewrite Hclock in Hc; cbn in Hc.
  apply andb_prop in Hc; destruct Hc as [Hnow _].
  destruct (word_found_shape Hword) as (Hlen & Hcap & _).
  exists word, (game_number_of tomorrow), (strftime_mdY tomorrow).
  repeat split; auto.
  apply strftime_is_calendar_date; exact (add_one_day_valid _ Hnow Hnext).
Qed.

Lemma fetch_returns_word_game_number_date_witness :
  exists word game_number date,
    fruit_record = [ (lit "word", VStr word);
                     (lit "game_number", VInt game_number);
                     (lit "date", VStr date) ]
    /\ length word = 5%nat
    /\ forallb is_capital_letter word = true
    /\ is_calendar_date date = true.
Proof.
  apply (@fetch_returns_word_game_number_date ascii_db (fst sunny_fetch)).
  - exact (run_runs (world_of sunny_day) (fetch_nyt_wordle ascii_db)).
  - vm_compute; reflexivity.
Defined.

(** C2. Given a record that has a word and a date,
    [add_word_to_database] runs the command once, with them, and what
    it returns follows from the exit status: [True] exactly when the
    command ran and exited with 0.  When the exit status is not 0 it
    returns [False], and the last thing on the console is the notice
    of a duplicate exactly when stdout followed by stderr contains
    "already exists" or "No changes made", the notice of a failure
    otherwise.  When the command could not be run at all, it returns
    [False] after the text of the exception. *)
Theorem add_word_result_follows_exit_status wd word date tr o :
  dict_get wd (lit "word") = Some word ->
  dict_get wd (lit "date") = Some date ->
  runs (add_word_to_database wd) tr o ->
  subprocess_calls tr
  = [[VStr (lit "node"); VStr (lit "add-word.mjs"); word; date]]
  /\ (o = Returned true
      <-> exists r, subprocess_answers tr = [Ok r] /\ returncode r = 0)
  /\ exists answer,
       subprocess_answers tr = [answer]
       /\ match answer with
          | Ok r =>
              if returncode r =? 0 then o = Returned true
              else o = Returned false
                   /\ (ends_with (console tr) notice_duplicate
                       <-> looks_duplicate r = true)
                   /\ (ends_with (console tr) notice_failure
                       <-> looks_duplicate r = false)
          | Err e =>
              o = Returned false
              /\ ends_with (console tr) [lit "[ERROR] " ++ exc_text e]
          end.
Proof.
  intros Hw Hd H; revert Hw Hd; walk_with open_add_word H; observe.
  all: repeat match goal with v := lit _ |- _ => subst v end.
  all: intros Hw Hd; try congruence.
  all: match goal with
       | E : dict_get _ (lit "word") = Some _ |- _ =>
           rewrite E in Hw; injection Hw as <-
       end;
    match goal with
    | E : dict_get _ (lit "date") = Some _ |- _ =>
        rewrite E in Hd; injection Hd as <-
    end.
  all: split; [ reflexivity | ].
  all: split;
    [ split;
      [ intros E;
        first [ discriminate
              | eexists; split;
                [ reflexivity
                | match goal with
                  | E' : negb (_ =? _) = false |- _ =>
                      apply negb_false_iff in E'; apply Z.eqb_eq in E'; exact E'
                  end ] ]
      | intros (r & E & Hr);
        first [ discriminate
              | reflexivity
              | injection E as <-;
                match goal with
                | E' : negb (_ =? _) = true |- _ =>
                    apply negb_true_iff in E'; apply Z.eqb_neq in E';
                    contradiction
                end ] ]
    | ].
  all: eexists; split; [ reflexivity | ]; cbv iota beta.
  all: try match goal with
           | E : negb (?c =? 0) = _ |- _ =>
               destruct (c =? 0); try discriminate E; clear E
           end.
  all: try reflexivity.
  all: try solve [ split; [ reflexivity | at_the_end ] ].
  all: split; [ reflexivity | ].
  all: unfold looks_duplicate;
    match goal with E : stderr _ = _ |- _ => rewrite E end;
    match goal with
    | E : _ || _ = true |- _ =>
        split; (split; [ intros Hend | intros Hdup ]);
        [ exact E
        | at_the_end
        | exfalso; apply notices_differ;
          match type of Hend with
          | ends_with ?l _ =>
              assert (Hd : ends_with l notice_duplicate) by at_the_end;
              exact (ends_with_same_length Hd Hend eq_refl)
          end
        | rewrite E in Hdup; discriminate ]
    | E : _ || _ = false |- _ =>
        split; (split; [ intros Hend | intros Hdup ]);
        [ exfalso; apply notices_differ;
          match type of Hend with
          | ends_with ?l _ =>
              assert (Hd : ends_with l notice_failure) by at_the_end;
              exact (ends_with_same_length Hend Hd eq_refl)
          end
        | rewrite E in Hdup; discriminate
        | exact E
        | at_the_end ]
    end.
Qed.

Lemma add_word_result_follows_exit_status_witness :
  (subprocess_calls (fst sunny_add)
   = [[VStr (lit "node"); VStr (lit "add-word.mjs");
       VStr (lit "FRUIT"); VStr (lit "01/01/2026")]]
   /\ snd sunny_add = Returned true)
  /\ (subprocess_calls (fst duplicate_add)
      = [[VStr (lit "node"); VStr (lit "add-word.mjs");
          VStr (lit "FRUIT"); VStr (lit "01/01/2026")]]
      /\ snd duplicate_add = Returned false
      /\ ends_with (console (fst duplicate_add)) notice_duplicate).
Proof.
  split.
  - destruct (@add_word_result_follows_exit_status
                fruit_record (VStr (lit "FRUIT")) (VStr (lit "01/01/2026"))
                (fst sunny_add) (snd sunny_add) eq_refl eq_refl
                (run_runs (world_of sunny_day)
                          (add_word_to_database fruit_record)))
      as (Hcalls & _ & answer & Hanswer & Hcase).
    split; [ exact Hcalls | ].
    vm_compute in Hanswer; injection Hanswer as <-.
    exact Hcase.
  - destruct (@add_word_result_follows_exit_status
                fruit_record (VStr (lit "FRUIT")) (VStr (lit "01/01/2026"))
                (fst duplicate_add) (snd duplicate_add) eq_refl eq_refl
                (run_runs (world_of duplicate_word)
                          (add_word_to_database fruit_record)))
      as (Hcalls & _ & answer & Hanswer & Hcase).
    split; [ exact Hcalls | ].
    vm_compute in Hanswer; injection Hanswer as <-.
    destruct Hcase as (Hfalse & Hdup & _).
    split; [ exact Hfalse | ].
    apply Hdup; vm_compute; reflexivity.
Defined.

(** C3. When no pattern is found in the text of the page,
    [fetch_nyt_wordle] says so on the console and returns [None], and
    [main] stops there: it prints that the fetch failed and never runs
    the database command. *)
Theorem no_match_reports_and_skips_database (U : unicode_db) tr o text :
  runs (main U) tr o ->
  In (Some text) (texts_read tr) ->
  no_pattern_matches U text = true ->
  exists trf trr,
    tr = IO (Print []) tt :: trf ++ trr
    /\ runs (fetch_nyt_wordle U) trf (Returned None)
    /\ In msg_no_answer (console trf)
    /\ o = Returned tt
    /\ In msg_failed (console tr)
    /\ subprocess_calls tr = [].
Proof.
  intros H; walk_main H; intros Hin Hno.
  all: fetch_part Hin.
  all: destruct (@fetch_no_match _ _ _ _ Hb Hf Hno) as (Ho & Hmsg & _ & _ & Hsub);
    try discriminate.
  all: destruct x; do 2 eexists; split; [ reflexivity | ].
  all: split; [ exact Hb | ].
  all: split; [ exact Hmsg | ].
  all: split; [ reflexivity | ].
  all: observe; split; [ find_in | rewrite ?app_nil_r; reflexivity ].
Qed.

Lemma no_match_reports_and_skips_database_witness :
  exists trf trr,
    fst unknown_format_main = IO (Print []) tt :: trf ++ trr
    /\ runs (fetch_nyt_wordle ascii_db) trf (Returned None)
    /\ In msg_no_answer (console trf)
    /\ snd unknown_format_main = Returned tt
    /\ In msg_failed (console (fst unknown_format_main))
    /\ subprocess_calls (fst unknown_format_main) = [].
Proof.
  apply (@no_match_reports_and_skips_database ascii_db _ _
           (lit "Subscribe to read the Wordle review.")).
  - exact (run_runs (world_of unknown_format) (main ascii_db)).
  - vm_compute; left; reflexivity.
  - vm_compute; reflexivity.
Defined.

(** C4. Whenever [add_word_to_database] runs the external command, the
    command is [node add-word.mjs] and its arguments are the word and
    the date of the record, in this order. *)
Theorem subprocess_gets_word_then_date wd tr o :
  runs (add_word_to_database wd) tr o ->
  forall args, In args (subprocess_calls tr) ->
  exists word date,
    dict_get wd (lit "word") = Some word
    /\ dict_get wd (lit "date") = Some date
    /\ args = [VStr (lit "node"); VStr (lit "add-word.mjs"); word; date].
Proof.
  intros H; walk_with open_add_word H; observe.
  all: intros args Hin; cbn [In] in Hin; try contradiction;
    destruct Hin as [<- | []]; do 2 eexists; repeat split; eassumption.
Qed.

Lemma subprocess_gets_word_then_date_witness :
  exists word date,
    dict_get fruit_record (lit "word") = Some word
    /\ dict_get fruit_record (lit "date") = Some date
    /\ [ VStr (lit "node"); VStr (lit "add-word.mjs");
         VStr (lit "FRUIT"); VStr (lit "01/01/2026") ]
       = [VStr (lit "node"); VStr (lit "add-word.mjs"); word; date].
Proof.
  apply (subprocess_gets_word_then_date
           (run_runs (world_of sunny_day) (add_word_to_database fruit_record))).
  vm_compute; left; reflexivity.
Defined.

(** C5. When the connection to the debugging port of the browser
    fails, the error and the guidance are printed, [fetch_nyt_wordle]
    returns [None], and nothing else is attempted: no page is opened,
    no navigation, no selector, no extraction, no database command. *)
Theorem connection_failure_short_circuits (U : unicode_db) tr o e :
  runs (main U) tr o ->
  In (Err e) (connect_answers tr) ->
  exists trf trr,
    tr = IO (Print []) tt :: trf ++ trr
    /\ runs (fetch_nyt_wordle U) trf (Returned None)
    /\ In msg_no_connection (console trf)
    /\ incl msg_guidance (console trf)
    /\ new_page_calls tr = [] /\ goto_urls tr = []
    /\ selectors_tried tr = [] /\ text_calls tr = []
    /\ subprocess_calls tr = []
    /\ o = Returned tt.
Proof.
  intros H; walk_main H; intros Hin.
  all: fetch_part Hin.
  all: destruct (fetch_calls Hb) as (_ & _ & _ & _ & _ & Hsub & Hfail).
  all: destruct (Hfail _ Hf) as (Ho & Hmsg & Hguide & Hnp & Hgo & Hsel & Htext);
    try discriminate.
  all: destruct x; do 2 eexists; split; [ reflexivity | ].
  all: split; [ exact Hb | ].
  all: split; [ exact Hmsg | ].
  all: split; [ exact Hguide | ].
  all: observe; rewrite ?app_nil_r; repeat split; reflexivity.
Qed.

Lemma connection_failure_short_circuits_witness :
  exists trf trr,
    fst no_browser_main = IO (Print []) tt :: trf ++ trr
    /\ runs (fetch_nyt_wordle ascii_db) trf (Returned None)
    /\ In msg_no_connection (console trf)
    /\ incl msg_guidance (console trf)
    /\ new_page_calls (fst no_browser_main) = []
    /\ goto_urls (fst no_browser_main) = []
    /\ selectors_tried (fst no_browser_main) = []
    /\ text_calls (fst no_browser_main) = []
    /\ subprocess_calls (fst no_browser_main) = []
    /\ snd no_browser_main = Returned tt.
Proof.
  apply (@connection_failure_short_circuits ascii_db _ _ connection_refused).
  - exact (run_runs (world_of no_browser) (main ascii_db)).
  - vm_compute; left; reflexivity.
Defined.

(** The claim C6 as it is written fails: on a page that no pattern
    recognises the run opens page 3, closes nothing and returns
    [None]. *)
Lemma page_left_open_when_no_pattern_matches :
  runs (fetch_nyt_wordle ascii_db) (fst unknown_format_fetch) (snd unknown_format_fetch)
  /\ snd unknown_format_fetch = Returned None
  /\ pages_opened (fst unknown_format_fetch) = [3%N]
  /\ close_calls (fst unknown_format_fetch) = []
  /\ ~ closes_what_it_opens ascii_db.
Proof.
  split; [ apply run_runs | ].
  split; [ vm_compute; reflexivity | ].
  split; [ vm_compute; reflexivity | ].
  split; [ vm_compute; reflexivity | ].
  intros Hc.
  specialize (Hc _ _ (run_runs (world_of unknown_format) (fetch_nyt_wordle ascii_db)) 3%N).
  vm_compute in Hc.
  destruct Hc as [F _]; [ left; reflexivity | exact F ].
Qed.

(** C6, amended. A run that returns a record has closed the page it
    opened and then the browser, both without an error, and these are
    its only closing calls.  A run whose page text no pattern
    recognises returns [None] with its page opened and nothing
    closed. *)
Theorem page_and_browser_closed_when_word_found (U : unicode_db) tr o :
  runs (fetch_nyt_wordle U) tr o ->
  (forall d, o = Returned (Some d) ->
   exists b pg,
     connect_answers tr = [Ok b] /\ pages_opened tr = [pg]
     /\ close_calls tr = [ClosePage pg true; CloseBrowser b true])
  /\ (forall text,
      In (Some text) (texts_read tr) -> no_pattern_matches U text = true ->
      o = Returned None
      /\ (exists pg, pages_opened tr = [pg])
      /\ close_calls tr = []).
Proof.
  intros H; split.
  - intros d ->.
    destruct (fetch_record H)
      as (now & today & tomorrow & text & word & b & pg
          & _ & _ & _ & _ & _ & _ & Hc & Hp & Hcl & _).
    exists b, pg; auto.
  - intros text Hin Hno.
    destruct (@fetch_no_match _ _ _ _ H Hin Hno) as (Ho & _ & Hcl & Hp & _).
    auto.
Qed.

Lemma page_and_browser_closed_when_word_found_witness :
  (forall d, snd sunny_fetch = Returned (Some d) ->
   exists b pg,
     connect_answers (fst sunny_fetch) = [Ok b]
     /\ pages_opened (fst sunny_fetch) = [pg]
     /\ close_calls (fst sunny_fetch) = [ClosePage pg true; CloseBrowser b true])
  /\ (forall text,
      In (Some text) (texts_read (fst sunny_fetch)) ->
      no_pattern_matches ascii_db text = true ->
      snd sunny_fetch = Returned None
      /\ (exists pg, pages_opened (fst sunny_fetch) = [pg])
      /\ close_calls (fst sunny_fetch) = []).
Proof.
  exact (page_and_browser_closed_when_word_found
           (run_runs (world_of sunny_day) (fetch_nyt_wordle ascii_db))).
Defined.

(** C7. In every run of [main] the browser is connected to at most
    once, the navigation is issued at most once, the selectors tried
    are the first few of the list of selectors, in its order, which has
    no repetition, the text is asked for at most once and the database
    command is run at most once. *)
Theorem no_step_is_repeated (U : unicode_db) tr o :
  runs (main U) tr o ->
  (length (connect_answers tr) <= 1)%nat
  /\ (length (goto_urls tr) <= 1)%nat
  /\ (exists n, selectors_tried tr = firstn n reveal_selectors)
  /\ NoDup reveal_selectors
  /\ (length (text_calls tr) <= 1)%nat
  /\ (length (subprocess_calls tr) <= 1)%nat.
Proof.
  intros H; walk_main H.
  all: destruct (fetch_calls Hb) as (Hc & _ & Hg & Ht & (n & Hn) & Hsub & _).
  all: observe; rewrite ?app_nil_r; rewrite ?length_app; cbn [length].
  all: repeat split; try lia; try (exists n; exact Hn).
  all: exact reveal_selectors_distinct.
Qed.

Lemma no_step_is_repeated_witness :
  (length (connect_answers (fst sunny_main)) <= 1)%nat
  /\ (length (goto_urls (fst sunny_main)) <= 1)%nat
  /\ (exists n, selectors_tried (fst sunny_main) = firstn n reveal_selectors)
  /\ NoDup reveal_selectors
  /\ (length (text_calls (fst sunny_main)) <= 1)%nat
  /\ (length (subprocess_calls (fst sunny_main)) <= 1)%nat.
Proof.
  exact (no_step_is_repeated (run_runs (world_of sunny_day) (main ascii_db))).
Defined.

(** C8. Two runs whose readings of the clock all fall on one calendar
    date either both stop on the overflow of the date, or show the same
    game number and the same address of the review: on the console, in
    the navigation and in the record. *)
Theorem same_date_same_game_number_and_url (U U' : unicode_db) tr o tr' o' :
  runs (fetch_nyt_wordle U) tr o ->
  runs (fetch_nyt_wordle U') tr' o' ->
  clock_valid tr = true -> clock_valid tr' = true ->
  (forall t t',
     In t (clock_reads tr ++ clock_reads tr') ->
     In t' (clock_reads tr ++ clock_reads tr') -> date_of t = date_of t') ->
  (o = Raised overflow_error /\ o' = Raised overflow_error
   /\ goto_urls tr = [] /\ goto_urls tr' = [])
  \/ exists game_number url,
       announces tr o game_number url /\ announces tr' o' game_number url.
Proof.
  intros H H' Hv Hv' Hsame.
  unfold clock_valid in Hv, Hv'.
  destruct (fetch_clock H)
    as [(now & Hc & Hnext & -> & _ & Hg)
       | (now & today & tomorrow & Hc & Hnext & Hn & Hu & Hg & Hd)];
    destruct (fetch_clock H')
      as [(now' & Hc' & Hnext' & -> & _ & Hg')
         | (now' & today' & tomorrow' & Hc' & Hnext' & Hn' & Hu' & Hg' & Hd')];
    rewrite Hc, Hc' in *; cbn [app forallb] in *.
  - left; auto.
  - exfalso.
    assert (E : date_of now = date_of now')
      by (apply Hsame; cbn; auto).
    pose proof (add_one_day_date E) as Hx.
    rewrite Hnext, Hnext' in Hx; exact Hx.
  - exfalso.
    assert (E : date_of now = date_of now')
      by (apply Hsame; cbn; auto).
    pose proof (add_one_day_date E) as Hx.
    rewrite Hnext, Hnext' in Hx; exact Hx.
  - right.
    assert (E : date_of now = date_of now') by (apply Hsame; cbn; auto).
    assert (E2 : date_of today = date_of today') by (apply Hsame; cbn; auto).
    pose proof (add_one_day_date E) as Hx.
    rewrite Hnext, Hnext' in Hx; destruct Hx as (Et & _ & _).
    apply andb_prop in Hv; destruct Hv as [Hv _].
    apply andb_prop in Hv'; destruct Hv' as [Hv' _].
    pose proof (@add_one_day_valid _ _ Hv Hnext) as Vt.
    pose proof (@add_one_day_valid _ _ Hv' Hnext') as Vt'.
    pose proof (@game_number_of_date _ _ Vt Vt' Et) as Eg.
    exists (game_number_of tomorrow), (review_url today (game_number_of tomorrow)).
    split; [ repeat split; assumption | ].
    rewrite (@review_url_date _ _ (game_number_of tomorrow) E2), Eg.
    repeat split; assumption.
Qed.

Lemma sunny_clock :
  clock_reads (fst sunny_fetch) = [sc_now sunny_day; sc_now sunny_day]
  /\ clock_reads (fst night_fetch) = [sc_now sunny_night; sc_now sunny_night].
Proof. split; vm_compute; reflexivity. Qed.

Lemma same_date_same_game_number_and_url_witness :
  (snd sunny_fetch = Raised overflow_error
   /\ snd night_fetch = Raised overflow_error
   /\ goto_urls (fst sunny_fetch) = [] /\ goto_urls (fst night_fetch) = [])
  \/ exists game_number url,
       announces (fst sunny_fetch) (snd sunny_fetch) game_number url
       /\ announces (fst night_fetch) (snd night_fetch) game_number url.
Proof.
  apply (@same_date_same_game_number_and_url ascii_db ascii_db).
  - exact (run_runs (world_of sunny_day) (fetch_nyt_wordle ascii_db)).
  - exact (run_runs (world_of sunny_night) (fetch_nyt_wordle ascii_db)).
  - vm_compute; reflexivity.
  - vm_compute; reflexivity.
  - destruct sunny_clock as [-> ->].
    intros t t' Ht Ht'; cbn [app In] in Ht, Ht'.
    repeat match goal with
           | H : _ \/ _ |- _ => destruct H as [<- | H]
           | H : False |- _ => destruct H
           end; reflexivity.
Defined.

(** C9. The word of a returned record is five characters long and made
    of capital letters only, whatever the case of the answer in the
    text of the page: it is the upper-case form of five characters of
    the text that [[A-Z]] matched with the case ignored.  When these
    are ASCII characters the word is made of the letters A to Z. *)
Theorem returned_word_is_five_capitals (U : unicode_db) tr d :
  runs (fetch_nyt_wordle U) tr (Returned (Some d)) ->
  exists text g word,
    texts_read tr = [Some text]
    /\ incl g text
    /\ forallb letter_like g = true
    /\ word = str_upper U g
    /\ dict_get d (lit "word") = Some (VStr word)
    /\ length word = 5%nat
    /\ forallb is_capital_letter word = true
    /\ (forallb is_ascii g = true -> forallb is_ascii_upper word = true).
Proof.
  intros H.
  destruct (fetch_record H)
    as (now & today & tomorrow & text & word & b & pg
        & _ & _ & Htext & _ & Hword & -> & _).
  destruct Hword as (g & -> & Hl & Hg & Hi).
  destruct (str_upper_letters U _ Hg) as (Hlen & Hcap & Hasc).
  exists text, g, (str_upper U g).
  repeat split; auto; congruence.
Qed.

Lemma returned_word_is_five_capitals_witness :
  exists text g word,
    texts_read (fst sunny_fetch) = [Some text]
    /\ incl g text
    /\ forallb letter_like g = true
    /\ word = str_upper ascii_db g
    /\ dict_get fruit_record (lit "word") = Some (VStr word)
    /\ length word = 5%nat
    /\ forallb is_capital_letter word = true
    /\ (forallb is_ascii g = true -> forallb is_ascii_upper word = true).
Proof.
  apply (@returned_word_is_five_capitals ascii_db (fst sunny_fetch)).
  exact (run_runs (world_of sunny_day) (fetch_nyt_wordle ascii_db)).
Defined.

(** C10. Once the page is loaded, whatever the selectors and the clicks
    do, the text of the page is asked for; when no click went through
    the warning is on the console; and when a pattern is found in the
    text and the closing calls go through, the run returns a record. *)
Theorem reveal_failure_does_not_stop_extraction (U : unicode_db) tr o :
  runs (fetch_nyt_wordle U) tr o ->
  goto_answers tr = [true] -> settle_waits tr = [true] ->
  text_calls tr = [lit "body"]
  /\ (clicks_ok tr = [] -> In msg_no_button (console tr))
  /\ (forall text,
      In (Some text) (texts_read tr) ->
      no_pattern_matches U text = false ->
      forallb closing_ok (close_calls tr) = true ->
      exists d, o = Returned (Some d)).
Proof. exact (@fetch_after_navigation U tr o). Qed.

Lemma reveal_failure_does_not_stop_extraction_witness :
  text_calls (fst no_button_fetch) = [lit "body"]
  /\ (clicks_ok (fst no_button_fetch) = [] ->
      In msg_no_button (console (fst no_button_fetch)))
  /\ (forall text,
      In (Some text) (texts_read (fst no_button_fetch)) ->
      no_pattern_matches ascii_db text = false ->
      forallb closing_ok (close_calls (fst no_button_fetch)) = true ->
      exists d, snd no_button_fetch = Returned (Some d)).
Proof.
  apply (@reveal_failure_does_not_stop_extraction ascii_db).
  - exact (run_runs (world_of no_button) (fetch_nyt_wordle ascii_db)).
  - vm_compute; reflexivity.
  - vm_compute; reflexivity.
Defined.

(** * More of the script *)

(** ** Failures after the connection *)

Ltac observe_contexts :=
  unfold contexts_answers in *;
  repeat (progress (cbn [flat_map app contexts_answer] in *;
                    repeat rewrite flat_map_app in *)).

Lemma reveal_call_no_contexts tr :
  forallb reveal_call tr = true -> flat_map contexts_answer tr = [].
Proof.
  intros H; eapply flat_map_quiet; [ | exact H ].
  intros [X ev x] Hi; destruct ev; cbn in *; try discriminate; reflexivity.
Qed.

(** Once a page is opened the function returns, whatever fails. *)
Theorem opened_page_means_return (U : unicode_db) tr o :
  runs (fetch_nyt_wordle U) tr o ->
  pages_opened tr <> [] ->
  exists r, o = Returned r.
Proof.
  intros H; walk_all H; observe; intros Hp;
    first [ eexists; reflexivity | exfalso; apply Hp; reflexivity ].
Qed.

Lemma opened_page_means_return_witness :
  exists r, snd sunny_fetch = Returned r.
Proof.
  apply (@opened_page_means_return ascii_db (fst sunny_fetch)).
  - exact (run_runs (world_of sunny_day) (fetch_nyt_wordle ascii_db)).
  - vm_compute; discriminate.
Defined.


Ltac observe_goto :=
  unfold goto_errors in *;
  repeat (progress (cbn [flat_map app goto_error] in *;
                    repeat rewrite flat_map_app in *)).

Lemma reveal_call_no_goto tr :
  forallb reveal_call tr = true -> flat_map goto_error tr = [].
Proof.
  intros H; eapply flat_map_quiet; [ | exact H ].
  intros [X ev x] Hi; destruct ev; cbn in *; try discriminate; reflexivity.
Qed.

(** A navigation that fails: the text of the exception that
    [page.goto] raised is printed after "[ERROR] ", followed by an
    empty line, and these are the last lines of the console; no
    selector is tried and no text is read; the browser is closed, the
    page is not; the function returns [None]. *)
Theorem navigation_failure_is_reported (U : unicode_db) tr o e :
  runs (fetch_nyt_wordle U) tr o ->
  In e (goto_errors tr) ->
  o = Returned None
  /\ ends_with (console tr) [lit "[ERROR] " ++ exc_text e; []]
  /\ In (lit "[ERROR] " ++ exc_text e) (console tr)
  /\ selectors_tried tr = [] /\ text_calls tr = []
  /\ exists b ok, connect_answers tr = [Ok b]
                  /\ close_calls tr = [CloseBrowser b ok].
Proof.
  intros H; walk_all H; observe; observe_goto.
  all: repeat match goal with
         | Hq : forallb reveal_call ?t = true |- _ =>
             rewrite (reveal_call_no_goto _ Hq) in *
         end; cbn [app].
  all: intros Hg; cbn [In] in Hg; try contradiction.
  all: destruct Hg as [<- | []].
  all: split; [ reflexivity | ].
  all: split; [ at_the_end | ].
  all: split; [ find_in | ].
  all: do 2 (split; [ reflexivity | ]).
  all: do 2 eexists; split; reflexivity.
Qed.

Lemma navigation_failure_is_reported_witness :
  snd failed_navigation = Returned None
  /\ ends_with (console (fst failed_navigation))
       [lit "[ERROR] " ++ exc_text navigation_error; []]
  /\ In (lit "[ERROR] " ++ exc_text navigation_error)
        (console (fst failed_navigation))
  /\ selectors_tried (fst failed_navigation) = []
  /\ text_calls (fst failed_navigation) = []
  /\ exists b ok, connect_answers (fst failed_navigation) = [Ok b]
                  /\ close_calls (fst failed_navigation) = [CloseBrowser b ok].
Proof.
  apply (@navigation_failure_is_reported ascii_db).
  - exact (run_runs (goto_fails (world_of sunny_day)) (fetch_nyt_wordle ascii_db)).
  - vm_compute; left; reflexivity.
Defined.


(** A browser without a context. *)
Theorem no_context_closes_the_browser (U : unicode_db) tr o :
  runs (fetch_nyt_wordle U) tr o ->
  In [] (contexts_answers tr) ->
  In msg_no_context (console tr)
  /\ new_page_calls tr = [] /\ goto_urls tr = [] /\ text_calls tr = []
  /\ exists b ok,
       connect_answers tr = [Ok b]
       /\ close_calls tr = [CloseBrowser b ok]
       /\ (ok = true -> o = Returned None)
       /\ (ok = false -> exists e, o = Raised e).
Proof.
  intros H; walk_all H; observe; observe_contexts;
    repeat match goal with
           | Hq : forallb reveal_call ?t = true |- _ =>
               rewrite (reveal_call_no_contexts _ Hq); clear Hq
           end;
    intros Hc; cbn [app In] in Hc;
    repeat match goal with
           | H : _ \/ _ |- _ => destruct H as [H | H]
           | H : False |- _ => destruct H
           end; try discriminate.
  all: split; [ find_in | ].
  all: do 3 (split; [ reflexivity | ]).
  all: do 2 eexists; do 2 (split; [ reflexivity | ]);
    split; intros;
    first [ discriminate | reflexivity | eexists; reflexivity ].
Qed.

Lemma no_context_closes_the_browser_witness :
  In msg_no_context (console (fst no_context_fetch))
  /\ new_page_calls (fst no_context_fetch) = []
  /\ goto_urls (fst no_context_fetch) = []
  /\ text_calls (fst no_context_fetch) = []
  /\ exists b ok,
       connect_answers (fst no_context_fetch) = [Ok b]
       /\ close_calls (fst no_context_fetch) = [CloseBrowser b ok]
       /\ (ok = true -> snd no_context_fetch = Returned None)
       /\ (ok = false -> exists e, snd no_context_fetch = Raised e).
Proof.
  apply (@no_context_closes_the_browser ascii_db).
  - exact (run_runs (without_context (world_of sunny_day))
                    (fetch_nyt_wordle ascii_db)).
  - vm_compute; left; reflexivity.
Defined.


(** A page without text. *)
Theorem missing_text_is_an_error (U : unicode_db) tr o :
  runs (fetch_nyt_wordle U) tr o ->
  In None (texts_read tr) ->
  o = Returned None
  /\ In (lit "[ERROR] " ++ exc_text type_error) (console tr)
  /\ exists b ok, connect_answers tr = [Ok b]
                  /\ close_calls tr = [CloseBrowser b ok].
Proof.
  intros H; walk_all H; observe; intros Hn; cbn [In] in Hn;
    try contradiction; destruct Hn as [Hn | []]; try discriminate.
  all: split; [ reflexivity | ].
  all: split; [ find_in | do 2 eexists; split; reflexivity ].
Qed.

Lemma missing_text_is_an_error_witness :
  snd empty_page_fetch = Returned None
  /\ In (lit "[ERROR] " ++ exc_text type_error) (console (fst empty_page_fetch))
  /\ exists b ok, connect_answers (fst empty_page_fetch) = [Ok b]
                  /\ close_calls (fst empty_page_fetch) = [CloseBrowser b ok].
Proof.
  apply (@missing_text_is_an_error ascii_db).
  - exact (run_runs (world_of empty_page) (fetch_nyt_wordle ascii_db)).
  - vm_compute; left; reflexivity.
Defined.


(** ** The database command *)

(** [add_word_to_database] never raises; without the key [word] or the
    key [date] it returns [False] before any command is run, and an
    exception of [subprocess.run] is printed and gives [False]. *)
Theorem add_word_catches_everything wd tr o :
  runs (add_word_to_database wd) tr o ->
  (exists b, o = Returned b)
  /\ (dict_get wd (lit "word") = None \/ dict_get wd (lit "date") = None ->
      o = Returned false /\ subprocess_calls tr = [])
  /\ (forall e, In (Err e) (subprocess_answers tr) ->
      o = Returned false /\ In (lit "[ERROR] " ++ exc_text e) (console tr)).
Proof.
  intros H; walk_with open_add_word H; observe.
  all: repeat match goal with v := lit _ |- _ => subst v end.
  all: split; [ eexists; reflexivity | ].
  all: split;
    [ intros [Hk | Hk]; first [ congruence | split; reflexivity ]
    | intros e' He; cbn [In] in He;
      first [ contradiction
            | destruct He as [He | []];
              first [ discriminate
                    | injection He as <-; split; [ reflexivity | find_in ] ] ] ].
Qed.

Lemma add_word_catches_everything_witness :
  (exists b, snd empty_record_add = Returned b)
  /\ (dict_get [] (lit "word") = None \/ dict_get [] (lit "date") = None ->
      snd empty_record_add = Returned false
      /\ subprocess_calls (fst empty_record_add) = [])
  /\ (forall e, In (Err e) (subprocess_answers (fst empty_record_add)) ->
      snd empty_record_add = Returned false
      /\ In (lit "[ERROR] " ++ exc_text e) (console (fst empty_record_add))).
Proof.
  exact (add_word_catches_everything
           (run_runs (world_of sunny_day) (add_word_to_database []))).
Defined.


Lemma str_in_app_l needle a b :
  str_in needle a = true -> str_in needle (a ++ b) = true.
Proof.
  assert (Hs : forall n x y, starts_with n x = true -> starts_with n (x ++ y) = true).
  { induction n as [ | c n IH]; intros [ | d x] y H; cbn in *; auto; try discriminate.
    apply andb_prop in H; destruct H as [H1 H2]; rewrite H1, (IH _ _ H2); reflexivity. }
  induction a as [ | c a IH]; cbn [str_in app]; intros H.
  - rewrite orb_false_r in H.
    destruct needle; [ destruct b; reflexivity | discriminate ].
  - apply orb_prop in H; destruct H as [H | H].
    + change (c :: a ++ b) with ((c :: a) ++ b); rewrite (Hs _ _ _ H); reflexivity.
    + rewrite (IH H); apply orb_true_r.
Qed.

Lemma str_in_app_r needle a b :
  str_in needle b = true -> str_in needle (a ++ b) = true.
Proof.
  intros H; induction a as [ | c a IH]; cbn [str_in app]; auto.
  rewrite IH; apply orb_true_r.
Qed.

(** A marker in either stream is enough for the notice of a duplicate. *)
Theorem marker_in_either_stream wd tr o r :
  runs (add_word_to_database wd) tr o ->
  In (Ok r) (subprocess_answers tr) ->
  returncode r <> 0 ->
  (exists marker stream,
      In marker [lit "already exists"; lit "No changes made"]
      /\ In stream [stdout r; stderr r]
      /\ str_in marker stream = true) ->
  o = Returned false /\ ends_with (console tr) notice_duplicate.
Proof.
  intros H Hin Hne (marker & stream & Hm & Hs & Hfound).
  assert (Hdup : looks_duplicate r = true).
  { unfold looks_duplicate.
    assert (Hc : str_in marker (stdout r ++ stderr r) = true).
    { destruct Hs as [<- | [<- | []]];
        [ apply str_in_app_l | apply str_in_app_r ]; exact Hfound. }
    destruct Hm as [<- | [<- | []]]; rewrite Hc; auto using orb_true_r. }
  revert Hin Hne Hdup; walk_with open_add_word H; observe;
    intros Hin Hne Hdup; cbn [In] in Hin; try contradiction;
    destruct Hin as [Hin | []]; try discriminate; injection Hin as <-.
  all: repeat match goal with
              | E : negb (_ =? _) = true |- _ =>
                  apply negb_true_iff in E; apply Z.eqb_neq in E
              | E : negb (_ =? _) = false |- _ =>
                  apply negb_false_iff in E; apply Z.eqb_eq in E
              end; try contradiction.
  all: repeat match goal with v := lit _ |- _ => subst v end.
  all: unfold looks_duplicate in Hdup;
    match goal with E : stderr _ = _ |- _ => rewrite E in Hdup end;
    try congruence.
  all: split; [ reflexivity | at_the_end ].
Qed.

Lemma marker_in_either_stream_witness :
  snd duplicate_add = Returned false
  /\ ends_with (console (fst duplicate_add)) notice_duplicate.
Proof.
  apply (@marker_in_either_stream fruit_record _ _
           {| returncode := 1;
              stdout := lit "FRUIT already exists for 01/01/2026";
              stderr := [] |}).
  - exact (run_runs (world_of duplicate_word) (add_word_to_database fruit_record)).
  - vm_compute; left; reflexivity.
  - discriminate.
  - exists (lit "already exists"), (lit "FRUIT already exists for 01/01/2026").
    split; [ left; reflexivity | ].
    split; [ left; reflexivity | vm_compute; reflexivity ].
Defined.


(** ** The end of [main] *)

Lemma record_word word g date :
  dict_get [ (lit "word", VStr word); (lit "game_number", VInt g);
             (lit "date", VStr date) ] (lit "word") = Some (VStr word).
Proof. reflexivity. Qed.

Lemma record_date word g date :
  dict_get [ (lit "word", VStr word); (lit "game_number", VInt g);
             (lit "date", VStr date) ] (lit "date") = Some (VStr date).
Proof. reflexivity. Qed.

(** What [main] hands to the database command is what
    [fetch_nyt_wordle] returned in the same run: the run of [main] is
    an empty line, a run of [fetch_nyt_wordle] that returns a record,
    and the rest; the command is run once, and its arguments are the
    word and the date of that record. *)
Theorem main_hands_over_the_record (U : unicode_db) tr o args :
  runs (main U) tr o ->
  clock_valid tr = true ->
  In args (subprocess_calls tr) ->
  exists trf trr d word date,
    tr = IO (Print []) tt :: trf ++ trr
    /\ runs (fetch_nyt_wordle U) trf (Returned (Some d))
    /\ dict_get d (lit "word") = Some (VStr word)
    /\ dict_get d (lit "date") = Some (VStr date)
    /\ subprocess_calls tr = [args]
    /\ args = [ VStr (lit "node"); VStr (lit "add-word.mjs");
                VStr word; VStr date ]
    /\ length word = 5%nat
    /\ forallb is_capital_letter word = true
    /\ is_calendar_date date = true.
Proof.
  intros H; walk_main H; intros Hv Hin.
  all: assert (Hsub : subprocess_calls tr = [])
    by (destruct (fetch_calls Hb) as (_ & _ & _ & _ & _ & Hs & _); exact Hs).
  all: revert Hin; observe; rewrite ?Hsub; cbn [app In]; intros Hin;
    try contradiction; destruct Hin as [<- | []].
  all: destruct (fetch_record Hb)
      as (now & today & tomorrow & text & word & b & pg
          & Hclock & Hnext & _ & _ & Hword & Hd & _).
  all: unfold clock_reads in Hclock; rewrite Hclock in Hv;
    cbn [app forallb] in Hv;
    apply andb_prop in Hv; destruct Hv as [Hnow _].
  all: destruct (word_found_shape Hword) as (Hlen & Hcap & _).
  all: repeat match goal with v := lit _ |- _ => subst v end.
  all: rewrite Hd in *;
    repeat match goal with
           | E : dict_get _ (lit "word") = Some _ |- _ =>
               rewrite record_word in E; injection E as <-
           | E : dict_get _ (lit "date") = Some _ |- _ =>
               rewrite record_date in E; injection E as <-
           end.
  all: destruct x.
  all: do 5 eexists; split; [ reflexivity | ].
  all: split; [ exact Hb | ].
  all: split; [ apply record_word | ].
  all: split; [ apply record_date | ].
  all: split; [ reflexivity | ].
  all: split; [ reflexivity | ]; repeat split; auto.
  all: apply strftime_is_calendar_date;
    exact (@add_one_day_valid _ _ Hnow Hnext).
Qed.

Lemma main_hands_over_the_record_witness :
  exists trf trr d word date,
    fst sunny_main = IO (Print []) tt :: trf ++ trr
    /\ runs (fetch_nyt_wordle ascii_db) trf (Returned (Some d))
    /\ dict_get d (lit "word") = Some (VStr word)
    /\ dict_get d (lit "date") = Some (VStr date)
    /\ subprocess_calls (fst sunny_main)
       = [[ VStr (lit "node"); VStr (lit "add-word.mjs");
            VStr (lit "FRUIT"); VStr (lit "01/01/2026") ]]
    /\ [ VStr (lit "node"); VStr (lit "add-word.mjs");
         VStr (lit "FRUIT"); VStr (lit "01/01/2026") ]
       = [ VStr (lit "node"); VStr (lit "add-word.mjs"); VStr word; VStr date ]
    /\ length word = 5%nat
    /\ forallb is_capital_letter word = true
    /\ is_calendar_date date = true.
Proof.
  apply (@main_hands_over_the_record ascii_db (fst sunny_main) (snd sunny_main)).
  - exact (run_runs (world_of sunny_day) (main ascii_db)).
  - vm_compute; reflexivity.
  - vm_compute; left; reflexivity.
Defined.








(** ** The count of days *)

Lemma days_before_next_year y :
  1 <= y ->
  days_before_year (y + 1)
  = days_before_year y + (if is_leap y then 366 else 365).
Proof.
  intros Hy; unfold days_before_year, is_leap; cbv zeta.
  replace (y + 1 - 1) with y by lia.
  destruct (Z.eqb_spec (y mod 4) 0) as [H4 | H4];
    destruct (Z.eqb_spec (y mod 100) 0) as [H100 | H100];
    destruct (Z.eqb_spec (y mod 400) 0) as [H400 | H400];
    cbn [negb andb orb];
    pose proof (Z.div_mod y 4); pose proof (Z.div_mod (y - 1) 4);
    pose proof (Z.div_mod y 100); pose proof (Z.div_mod (y - 1) 100);
    pose proof (Z.div_mod y 400); pose proof (Z.div_mod (y - 1) 400);
    pose proof (Z.mod_pos_bound y 4); pose proof (Z.mod_pos_bound (y - 1) 4);
    pose proof (Z.mod_pos_bound y 100); pose proof (Z.mod_pos_bound (y - 1) 100);
    pose proof (Z.mod_pos_bound y 400); pose proof (Z.mod_pos_bound (y - 1) 400);
    lia.
Qed.

(** The day after has the next ordinal. *)
Lemma add_one_day_ordinal t t' :
  valid_datetime t = true -> add_one_day t = Some t' ->
  toordinal t' = toordinal t + 1.
Proof.
  unfold valid_datetime, add_one_day, toordinal, ymd2ord; intros H.
  apply andb_prop in H; destruct H as [H _].
  apply andb_prop in H; destruct H as [H _].
  apply valid_ymd_bounds in H; destruct H as (Hy & Hm & Hd).
  destruct (Z.ltb_spec (dt_day t) (days_in_month (dt_year t) (dt_month t))).
  - intros [= <-]; cbn; lia.
  - destruct (Z.ltb_spec (dt_month t) 12).
    + intros [= <-]; cbn [dt_year dt_month dt_day].
      assert (Hd' : dt_day t = days_in_month (dt_year t) (dt_month t)) by lia.
      rewrite Hd'; clear Hd Hd' H.
      unfold days_before_month, days_in_month.
      assert (Hc : dt_month t = 1 \/ dt_month t = 2 \/ dt_month t = 3
                   \/ dt_month t = 4 \/ dt_month t = 5 \/ dt_month t = 6
                   \/ dt_month t = 7 \/ dt_month t = 8 \/ dt_month t = 9
                   \/ dt_month t = 10 \/ dt_month t = 11) by lia.
      destruct Hc as [-> | [-> | [-> | [-> | [-> | [-> | [-> | [-> | [-> | [-> | ->]]]]]]]]]];
        repeat match goal with
               | |- context [Z.pos ?p + 1] =>
                   let v := eval vm_compute in (Z.pos p + 1) in
                   change (Z.pos p + 1) with v
               end;
        destruct (is_leap (dt_year t));
        generalize (days_before_year (dt_year t)); intros D;
        cbv - [Z.add]; lia.
    + destruct (Z.ltb_spec (dt_year t) MAXYEAR); [ | discriminate ].
      intros [= <-]; cbn [dt_year dt_month dt_day].
      assert (Hm' : dt_month t = 12) by lia.
      assert (Hd' : dt_day t = 31).
      { assert (E : days_in_month (dt_year t) 12 = 31) by reflexivity.
        rewrite Hm' in *; lia. }
      rewrite Hm', Hd', days_before_next_year by lia.
      change (days_before_month (dt_year t + 1) 1) with 0.
      change (days_before_month (dt_year t) 12)
        with (334 + (if is_leap (dt_year t) then 1 else 0)).
      destruct (is_leap (dt_year t)); lia.
Qed.

(** The game number grows by one from a day to the next, and it is 0
    when tomorrow is the day Wordle started. *)
Theorem game_number_counts_days t t' :
  valid_datetime t = true -> add_one_day t = Some t' ->
  game_number_of t' = game_number_of t + 1
  /\ game_number_of t = toordinal t - toordinal WORDLE_START_DATE
  /\ (date_of t = (2021, 6, 19) -> game_number_of t = 0).
Proof.
  intros Hv Hn.
  pose proof (@add_one_day_valid _ _ Hv Hn) as Hv'.
  unfold game_number_of.
  rewrite !sub_days_floor by (auto using valid_datetime_micros).
  rewrite (@add_one_day_ordinal _ _ Hv Hn).
  repeat split; try lia.
  unfold date_of, toordinal; intros [= -> -> ->]; reflexivity.
Qed.

Lemma game_number_counts_days_witness :
  game_number_of new_years_day = game_number_of new_years_eve + 1
  /\ game_number_of new_years_eve
     = toordinal new_years_eve - toordinal WORDLE_START_DATE
  /\ (date_of new_years_eve = (2021, 6, 19) -> game_number_of new_years_eve = 0).
Proof.
  apply (@game_number_counts_days new_years_eve new_years_day);
    vm_compute; reflexivity.
Defined.


(** ** The reveal stage and its warning *)

Lemma reveal_loop_console page sels : forall c tr o,
  runs (reveal_loop page sels c) tr o ->
  (forall line, In line (console tr) -> line = msg_clicked)
  /\ exists c', o = Returned c'
                /\ (c' = true <-> c = true \/ clicks_ok tr <> []).
Proof.
  induction sels as [ | sel rest IH]; intros c tr o H.
  - cbn in H; destruct H as [-> ->]; split; [ intros line [] | ].
    exists c; split; [ reflexivity | ].
    split; [ auto | intros [Hc | Hc]; [ exact Hc | exfalso; apply Hc; reflexivity ] ].
  - cbn [reveal_loop] in H; steps H;
      try (apply IH in H; destruct H as (Hl & c' & -> & Hc));
      (split;
       [ intros line Hin; observe; cbn [In] in Hin;
         repeat match goal with
                | Hx : _ \/ _ |- _ => destruct Hx as [<- | Hx]
                end; first [ reflexivity | contradiction | apply Hl; exact Hin ]
       | eexists; split; [ reflexivity | ]; observe ]).
    + split; [ intros _; right; discriminate | reflexivity ].
    + rewrite Hc; split; [ intros _; right; discriminate | auto ].
    + exact Hc.
    + exact Hc.
    + exact Hc.
Qed.

Lemma warning_is_not_a_click : msg_no_button <> msg_clicked.
Proof. vm_compute; discriminate. Qed.

Lemma reveal_loop_lines page sels : forall c tr o,
  runs (reveal_loop page sels c) tr o ->
  console tr = repeat msg_clicked (length (clicks_ok tr)).
Proof.
  induction sels as [ | sel rest IH]; intros c tr o H.
  - cbn in H; destruct H as [-> ->]; reflexivity.
  - cbn [reveal_loop] in H; steps H;
      try (apply IH in H); observe;
      rewrite ?H; reflexivity.
Qed.

(** The reveal stage prints its warning exactly when no click went
    through, and prints nothing else but one "[OK] Clicked reveal
    button!" for each click that went through: the console of the
    stage is these lines, then the warning if there was no click. *)
Theorem reveal_warns_iff_no_click page tr o :
  runs (reveal page) tr o ->
  (In msg_no_button (console tr) <-> clicks_ok tr = [])
  /\ console tr
     = repeat msg_clicked (length (clicks_ok tr))
       ++ match clicks_ok tr with
          | [] => [msg_no_button]
          | _ :: _ => []
          end.
Proof.
  intros H.
  assert (Hiff : In msg_no_button (console tr) <-> clicks_ok tr = []).
  { split; [ | destruct (reveal_runs H) as (_ & _ & _ & Hw); exact Hw ].
    unfold reveal in H.
    focus_then (reveal_loop page reveal_selectors false) H ltac:(fun Hb => idtac).
    apply reveal_loop_console in Hb.
    destruct Hb as (Hl & c' & -> & Hc).
    destruct c'; steps H; observe; rewrite ?app_nil_r.
    - intros Hin; apply Hl in Hin; destruct (warning_is_not_a_click Hin).
    - intros _.
      destruct (flat_map clicked_ok tr0) eqn:E; [ reflexivity | ].
      assert (X : false = true) by (apply Hc; right; discriminate).
      discriminate. }
  split; [ exact Hiff | ].
  unfold reveal in H.
  focus_then (reveal_loop page reveal_selectors false) H ltac:(fun Hb => idtac).
  pose proof (@reveal_loop_lines _ _ _ _ _ Hb) as Hlines.
  apply reveal_loop_console in Hb.
  destruct Hb as (_ & c' & -> & Hc).
  destruct c'; steps H; observe; rewrite ?app_nil_r.
  - unfold console, clicks_ok in Hlines; rewrite Hlines.
    destruct (flat_map clicked_ok tr0) eqn:E.
    + destruct Hc as [Hc _]; destruct (Hc eq_refl) as [X | X];
        [ discriminate | destruct (X eq_refl) ].
    + rewrite app_nil_r; reflexivity.
  - unfold console, clicks_ok in Hlines; rewrite Hlines.
    destruct (flat_map clicked_ok tr0) eqn:E; [ reflexivity | ].
    assert (X : false = true) by (apply Hc; right; discriminate).
    discriminate.
Qed.

Lemma reveal_warns_iff_no_click_witness :
  (In msg_no_button (console (fst no_button_reveal))
   <-> clicks_ok (fst no_button_reveal) = [])
  /\ console (fst no_button_reveal)
     = repeat msg_clicked (length (clicks_ok (fst no_button_reveal)))
       ++ match clicks_ok (fst no_button_reveal) with
          | [] => [msg_no_button]
          | _ :: _ => []
          end.
Proof.
  exact (reveal_warns_iff_no_click
           (run_runs (world_of no_button) (reveal 3%N))).
Defined.


(** ** Upper and lower case in the text *)

Lemma small_cases c :
  (is_ascii_upper c = true /\ small c = (c + 32)%N /\ (65 <= c <= 90)%N)
  \/ (is_ascii_upper c = false /\ small c = c).
Proof.
  unfold small; destruct (is_ascii_upper c) eqn:E; auto.
  left; repeat split; unfold is_ascii_upper in E;
    apply andb_prop in E; destruct E as [E1 E2];
    apply N.leb_le in E1; apply N.leb_le in E2; lia.
Qed.

Ltac small_case c :=
  destruct (small_cases c) as [(_ & -> & ?) | (_ & ->)]; [ | reflexivity ].

Ltac decide_tests :=
  repeat match goal with
         | |- context [N.eqb ?a ?b] => destruct (N.eqb_spec a b); try lia
         | |- context [N.leb ?a ?b] => destruct (N.leb_spec a b); try lia
         | |- context [N.ltb ?a ?b] => destruct (N.ltb_spec a b); try lia
         end.

Lemma sre_lower_small c : sre_lower (small c) = sre_lower c.
Proof.
  small_case c.
  unfold sre_lower, is_ascii_upper, cp_I_dot, cp_kelvin; decide_tests; reflexivity.
Qed.

Lemma lit_ic_small x c : lit_ic x (small c) = lit_ic x c.
Proof. unfold lit_ic; rewrite sre_lower_small; reflexivity. Qed.

Lemma is_space_small c : is_space (small c) = is_space c.
Proof. small_case c; unfold is_space; decide_tests; reflexivity. Qed.

Lemma existsb_same (A : Type) (f g : A -> bool) l :
  (forall x, f x = g x) -> existsb f l = existsb g l.
Proof.
  intros H; induction l as [ | x l IH]; cbn; auto.
  rewrite H, IH; reflexivity.
Qed.

Section Small.

Variable U : unicode_db.

Lemma is_digit_small c : is_digit U (small c) = is_digit U c.
Proof.
  small_case c; unfold is_digit, is_ascii_digit; decide_tests; reflexivity.
Qed.

Lemma is_word_small c : is_word U (small c) = is_word U c.
Proof.
  small_case c; unfold is_word, is_ascii_upper, is_ascii_lower, is_ascii_digit;
    decide_tests; reflexivity.
Qed.

Lemma setitem_match_small i c :
  setitem_match i (small c) = setitem_match i c.
Proof.
  destruct i as [x | lo hi | ]; cbn.
  - apply lit_ic_small.
  - unfold range_ic; apply existsb_same; intros x; apply lit_ic_small.
  - apply is_space_small.
Qed.

Lemma atom_match_small a c : atom_match U a (small c) = atom_match U a c.
Proof.
  destruct a as [x | | | | items]; cbn.
  - apply lit_ic_small.
  - small_case c; decide_tests; reflexivity.
  - apply is_space_small.
  - apply is_digit_small.
  - apply existsb_same; intros i; apply setitem_match_small.
Qed.

Lemma upper_char_small c : upper_char U (small c) = upper_char U c.
Proof.
  small_case c.
  unfold upper_char, is_ascii_lower, cp_dotless_i, cp_long_s, cp_I_dot, cp_kelvin;
    decide_tests; cbn [andb]; f_equal; lia.
Qed.

Lemma str_upper_small s : str_upper U (map small s) = str_upper U s.
Proof.
  unfold str_upper; induction s as [ | c s IH]; cbn; auto.
  rewrite upper_char_small, IH; reflexivity.
Qed.

Lemma rep_atom_small a k : forall s,
  rep_atom U a k (map small s)
  = option_map (fun cr => (map small (fst cr), map small (snd cr)))
               (rep_atom U a k s).
Proof.
  induction k as [ | k IH]; intros s; cbn [rep_atom]; auto.
  destruct s as [ | c s]; cbn [map]; auto.
  rewrite atom_match_small; destruct (atom_match U a c); auto.
  rewrite IH; destruct (rep_atom U a k s) as [[cap rest] | ]; reflexivity.
Qed.


Lemma star_greedy_small a
    (k k' : option codepoint -> pystr -> option (option pystr)) :
  (forall p t, k' (option_map small p) (map small t)
               = option_map small_group (k p t)) ->
  forall s prev,
    star_greedy U a k' (option_map small prev) (map small s)
    = option_map small_group (star_greedy U a k prev s).
Proof.
  intros Hk; induction s as [ | c s IH]; intros prev; cbn [star_greedy map].
  - apply (Hk prev []).
  - rewrite atom_match_small; destruct (atom_match U a c).
    + pose proof (IH (Some c)) as E; cbn [option_map] in E; rewrite E.
      destruct (star_greedy U a k (Some c) s); [ reflexivity | ].
      apply (Hk prev (c :: s)).
    + apply (Hk prev (c :: s)).
Qed.

Lemma last_small cap prev :
  last (map Some (map small cap)) (option_map small prev)
  = option_map small (last (map Some cap) prev).
Proof.
  induction cap as [ | c cap IH]; cbn [map last]; auto.
  destruct cap as [ | d cap]; [ reflexivity | exact IH ].
Qed.

Lemma word_at_small p : word_at U (option_map small p) = word_at U p.
Proof. destruct p; cbn; auto using is_word_small. Qed.

Lemma match_here_small r : forall prev s g,
  match_here U r (option_map small prev) (map small s) (small_group g)
  = option_map small_group (match_here U r prev s g).
Proof.
  induction r as [ | n r IH]; intros prev s g; [ reflexivity | ].
  destruct n as [a | a | a | k a | ]; cbn [match_here].
  - destruct s as [ | c s]; cbn [map]; auto.
    rewrite atom_match_small; destruct (atom_match U a c); auto.
    apply (IH (Some c)).
  - destruct s as [ | c s]; cbn [map]; [ apply (IH prev []) | ].
    rewrite atom_match_small; destruct (atom_match U a c);
      [ | apply (IH prev (c :: s)) ].
    pose proof (IH (Some c) s g) as E; cbn [option_map] in E; rewrite E.
    destruct (match_here U r (Some c) s g); [ reflexivity | ].
    apply (IH prev (c :: s)).
  - destruct s as [ | c s]; cbn [map]; auto.
    rewrite atom_match_small; destruct (atom_match U a c); auto.
    apply (star_greedy_small a
             (fun p t => match_here U r p t g)
             (fun p t => match_here U r p t (small_group g))
             (fun p t => IH p t g) s (Some c)).
  - rewrite rep_atom_small.
    destruct (rep_atom U a k s) as [[cap rest] | ]; cbn [option_map fst snd]; auto.
    rewrite last_small; apply (IH _ rest (Some cap)).
  - rewrite word_at_small.
    replace (word_at U (hd_error (map small s))) with (word_at U (hd_error s))
      by (destruct s; cbn; auto using is_word_small).
    destruct (xorb _ _); auto.
Qed.

Lemma search_from_small r : forall s prev,
  search_from U r (option_map small prev) (map small s)
  = option_map small_group (search_from U r prev s).
Proof.
  induction s as [ | c s IH]; intros prev;
    pose proof (match_here_small r prev) as E.
  - specialize (E [] None); cbn [map] in E;
      change (small_group None) with (@None pystr) in E.
    cbn [search_from map]; rewrite E.
    destruct (match_here U r prev [] None); reflexivity.
  - specialize (E (c :: s) None); cbn [map] in E;
      change (small_group None) with (@None pystr) in E.
    cbn [search_from map]; rewrite E.
    destruct (match_here U r prev (c :: s) None); [ reflexivity | ].
    apply (IH (Some c)).
Qed.

(** The search does not look at the case of the ASCII letters of the
    text: the same patterns are found, and the same word. *)
Theorem find_word_ignores_case pats text :
  find_word U pats (Some (map small text)) = find_word U pats (Some text).
Proof.
  induction pats as [ | p pats IH]; [ reflexivity | ].
  cbn [find_word]; unfold re_search.
  pose proof (search_from_small p text None) as E; cbn [option_map] in E;
    rewrite E.
  destruct (search_from U p None text) as [[g | ] | ]; cbn [option_map small_group].
  - rewrite str_upper_small; reflexivity.
  - reflexivity.
  - exact IH.
Qed.

End Small.
